(** * steps-cache-push: [md5.py]

    A shallow embedding of the script [md5.py] and the properties of it that
    the specification states.

    The script is twelve lines of Python: a function [md5(fname)] that streams
    a file through [hashlib.md5()] in 4096-byte reads, an argument-count
    guard, and a [print] of the digest.  The development has three layers:

    - [Hashlib]: the MD5 object of Python's standard library ([hashlib.md5()],
      [update], [hexdigest]), written after RFC 1321, together with the one-shot
      digest of a byte string that it is compared with;
    - [Py]: the part of the Python run time the script touches ([sys.argv],
      [open], [read], the [with] statement, [print], uncaught exceptions), as a
      state-and-exception monad over an explicit process state that logs the
      events of the run;
    - [Script]: the script itself, statement by statement. *)

From Stdlib Require Import String Ascii.
From Stdlib Require Import ZArith List Bool Lia Arith.
From Stdlib Require Import Init.Byte.
Import ListNotations.

Local Open Scope list_scope.

(* ================================================================== *)
(** * The MD5 object of [hashlib] *)
(* ================================================================== *)

Module Hashlib.

Local Open Scope Z_scope.

(** 32-bit words are integers of [Z] kept in [0, 2^32) by [wrap32]. *)
Definition wrap32 (x : Z) : Z := x mod 4294967296.
Definition add32 (x y : Z) : Z := wrap32 (x + y).
Definition not32 (x : Z) : Z := Z.lxor x 4294967295.
Definition rotl32 (x s : Z) : Z :=
  wrap32 (Z.lor (Z.shiftl x s) (Z.shiftr x (32 - s))).

(** The four auxiliary functions of RFC 1321, section 3.4. *)
Definition md5_F (x y z : Z) : Z := Z.lor (Z.land x y) (Z.land (not32 x) z).
Definition md5_G (x y z : Z) : Z := Z.lor (Z.land x z) (Z.land y (not32 z)).
Definition md5_H (x y z : Z) : Z := Z.lxor (Z.lxor x y) z.
Definition md5_I (x y z : Z) : Z := Z.lxor y (Z.lor x (not32 z)).

(** [sine_table] is the table T[1..64] of the RFC:
    the integer part of 2^32 * abs(sin i). *)
Definition sine_table : list Z :=
  [ 0xd76aa478; 0xe8c7b756; 0x242070db; 0xc1bdceee;
    0xf57c0faf; 0x4787c62a; 0xa8304613; 0xfd469501;
    0x698098d8; 0x8b44f7af; 0xffff5bb1; 0x895cd7be;
    0x6b901122; 0xfd987193; 0xa679438e; 0x49b40821;
    0xf61e2562; 0xc040b340; 0x265e5a51; 0xe9b6c7aa;
    0xd62f105d; 0x02441453; 0xd8a1e681; 0xe7d3fbc8;
    0x21e1cde6; 0xc33707d6; 0xf4d50d87; 0x455a14ed;
    0xa9e3e905; 0xfcefa3f8; 0x676f02d9; 0x8d2a4c8a;
    0xfffa3942; 0x8771f681; 0x6d9d6122; 0xfde5380c;
    0xa4beea44; 0x4bdecfa9; 0xf6bb4b60; 0xbebfbc70;
    0x289b7ec6; 0xeaa127fa; 0xd4ef3085; 0x04881d05;
    0xd9d4d039; 0xe6db99e5; 0x1fa27cf8; 0xc4ac5665;
    0xf4292244; 0x432aff97; 0xab9423a7; 0xfc93a039;
    0x655b59c3; 0x8f0ccc92; 0xffeff47d; 0x85845dd1;
    0x6fa87e4f; 0xfe2ce6e0; 0xa3014314; 0x4e0811a1;
    0xf7537e82; 0xbd3af235; 0x2ad7d2bb; 0xeb86d391 ].

(** The per-step left rotations. *)
Definition rotations : list Z :=
  [ 7; 12; 17; 22; 7; 12; 17; 22; 7; 12; 17; 22; 7; 12; 17; 22;
    5;  9; 14; 20; 5;  9; 14; 20; 5;  9; 14; 20; 5;  9; 14; 20;
    4; 11; 16; 23; 4; 11; 16; 23; 4; 11; 16; 23; 4; 11; 16; 23;
    6; 10; 15; 21; 6; 10; 15; 21; 6; 10; 15; 21; 6; 10; 15; 21 ].

(** The chaining value: the registers A, B, C, D. *)
Definition chain : Type := (Z * Z * Z * Z)%type.

Definition chain_init : chain :=
  (0x67452301, 0xefcdab89, 0x98badcfe, 0x10325476).

Definition byte_val (b : byte) : Z := Z.of_N (Byte.to_N b).

Definition byte_of_Z (z : Z) : byte :=
  match Byte.of_N (Z.to_N (z mod 256)) with
  | Some b => b
  | None => x00
  end.

(** A block of 64 bytes is read as 16 little-endian words. *)
Fixpoint decode (l : list byte) : list Z :=
  match l with
  | b0 :: b1 :: b2 :: b3 :: r =>
      (byte_val b0 + 256 * byte_val b1 + 65536 * byte_val b2
       + 16777216 * byte_val b3) :: decode r
  | _ => []
  end.

(** One of the 64 steps on a block whose words are [M]. *)
Definition step (M : list Z) (st : chain) (i : nat) : chain :=
  let '(a, b, c, d) := st in
  let iz := Z.of_nat i in
  let '(f, g) :=
    if (i <? 16)%nat then (md5_F b c d, iz)
    else if (i <? 32)%nat then (md5_G b c d, (5 * iz + 1) mod 16)
    else if (i <? 48)%nat then (md5_H b c d, (3 * iz + 5) mod 16)
    else (md5_I b c d, (7 * iz) mod 16) in
  let t := add32 (add32 (add32 f a) (nth i sine_table 0))
                 (nth (Z.to_nat g) M 0) in
  (d, add32 b (rotl32 t (nth i rotations 0)), b, c).

(** The compression function: 64 steps, then the feed-forward addition. *)
Definition compress (h : chain) (block : list byte) : chain :=
  let '(a0, b0, c0, d0) := h in
  let '(a, b, c, d) := fold_left (step (decode block)) (seq 0 64) h in
  (add32 a0 a, add32 b0 b, add32 c0 c, add32 d0 d).

(** [blocks_fuel n l] cuts [l] into its full 64-byte blocks and the
    remainder of fewer than 64 bytes; [n] bounds the number of blocks. *)
Fixpoint blocks_fuel (n : nat) (l : list byte) : list (list byte) * list byte :=
  match n with
  | O => ([], l)
  | S n' =>
      if (64 <=? length l)%nat
      then let (bs, r) := blocks_fuel n' (skipn 64 l) in (firstn 64 l :: bs, r)
      else ([], l)
  end.

Definition split_blocks (l : list byte) : list (list byte) * list byte :=
  blocks_fuel (length l) l.

(** The padding that follows a message of [n] bytes: a 1 bit, zero bits up
    to 56 modulo 64 bytes, and the bit length as a 64-bit little-endian
    integer (RFC 1321, sections 3.1 and 3.2). *)
Definition le64 (v : Z) : list byte :=
  map (fun k => byte_of_Z (Z.shiftr v (8 * Z.of_nat k))) (seq 0 8).

Definition pad_tail (n : nat) : list byte :=
  x80 :: repeat x00 (Z.to_nat ((55 - Z.of_nat n) mod 64))
      ++ le64 ((8 * Z.of_nat n) mod 18446744073709551616).

(** ** The digest of a byte string, in one piece *)

Definition md5_sum (msg : list byte) : chain :=
  fold_left compress (fst (split_blocks (msg ++ pad_tail (length msg))))
            chain_init.

(** ** The hash object

    [hashlib.md5()] returns an object that holds the chaining value, the
    bytes of the block not yet complete and the number of bytes seen. *)
Record md5_obj : Type := mk_md5 {
  chaining : chain;
  buffer : list byte;
  count : nat
}.

Definition md5_new : md5_obj :=
  {| chaining := chain_init; buffer := []; count := 0 |}.

(** [hash.update(data)]: compress every block that [data] completes and
    keep the rest in the buffer. *)
Definition update (o : md5_obj) (data : list byte) : md5_obj :=
  let (bs, r) := split_blocks (buffer o ++ data) in
  {| chaining := fold_left compress bs (chaining o);
     buffer := r;
     count := count o + length data |}.

(** [hash.digest()] pads a copy of the object and returns the chaining
    value; the object itself is left as it is. *)
Definition digest (o : md5_obj) : chain :=
  fold_left compress (fst (split_blocks (buffer o ++ pad_tail (count o))))
            (chaining o).

(** The digest is written out register by register, each register with
    its low-order byte first, each byte as two lowercase hex digits. *)
Definition word_bytes (w : Z) : list Z :=
  [ w mod 256; (w / 256) mod 256; (w / 65536) mod 256; (w / 16777216) mod 256 ].

Definition chain_bytes (h : chain) : list Z :=
  let '(a, b, c, d) := h in
  word_bytes a ++ word_bytes b ++ word_bytes c ++ word_bytes d.

Definition hex_alphabet : list ascii :=
  list_ascii_of_string "0123456789abcdef".

Definition hex_digit (d : Z) : ascii := nth (Z.to_nat d) hex_alphabet "0"%char.

Definition hex_byte (b : Z) : list ascii := [hex_digit (b / 16); hex_digit (b mod 16)].

Definition hex_of_chain (h : chain) : string :=
  string_of_list_ascii (flat_map hex_byte (chain_bytes h)).

Definition hexdigest (o : md5_obj) : string := hex_of_chain (digest o).

Definition is_lower_hex (c : ascii) : bool :=
  existsb (Ascii.eqb c) hex_alphabet.

End Hashlib.

Import Hashlib.

(* ================================================================== *)
(** * The Python run time, as far as the script uses it *)
(* ================================================================== *)

Module Py.

(** The exceptions that the operations below raise.  [OSError] stands for
    the error of a read that fails on an open file; the three before it are
    the subclasses of [OSError] that [open] raises. *)
Inductive exn : Type :=
| IndexError
| FileNotFoundError
| IsADirectoryError
| PermissionError
| OSError.

(** What a path of the file system names.  A regular file has its bytes
    and, when the device is faulty, the offset of the first byte that cannot
    be read. *)
Inductive node : Type :=
| RegularFile (content : list byte) (fault : option nat)
| Directory
| Unreadable.

(** An open binary file object: its descriptor, the bytes behind it and
    the position of the next read. *)
Record file : Type := mk_file {
  fd : nat;
  data : list byte;
  fault_at : option nat;
  pos : nat
}.

(** What a run does, in order. *)
Inductive event : Type :=
| EvNameExit
| EvArgvIndex (i : nat)
| EvOpen (path : string) (handle : option nat)
| EvRead (handle size : nat) (got : option nat)
| EvUpdate (chunk : list byte)
| EvClose (handle : nat)
| EvPrint (line : string).

Record state : Type := mk_state {
  argv : list string;
  fs : string -> option node;
  open_fds : list nat;
  stdout : string;
  trace : list event
}.

Inductive res (A : Type) : Type :=
| Ok (a : A)
| Raise (e : exn)
| OutOfFuel.

Arguments Ok {A} a.
Arguments Raise {A} e.
Arguments OutOfFuel {A}.

(** Statements and expressions run in a state and either yield a value,
    raise, or (for the loop only) use up their fuel. *)
Definition M (A : Type) : Type := state -> res A * state.

Definition ret {A} (a : A) : M A := fun st => (Ok a, st).

Definition raise {A} (e : exn) : M A := fun st => (Raise e, st).

Definition bind {A B} (m : M A) (k : A -> M B) : M B :=
  fun st =>
    match m st with
    | (Ok a, st') => k a st'
    | (Raise e, st') => (Raise e, st')
    | (OutOfFuel, st') => (OutOfFuel, st')
    end.

Notation "x <- c1 ;; c2" := (bind c1 (fun x => c2))
  (at level 61, c1 at next level, right associativity).
Notation "c1 ;; c2" := (bind c1 (fun _ => c2))
  (at level 61, right associativity).

(** The state after the events [tr] were logged. *)
Definition emit (tr : list event) (st : state) : state :=
  {| argv := argv st; fs := fs st; open_fds := open_fds st;
     stdout := stdout st; trace := trace st ++ tr |}.

Definition log (e : event) (st : state) : state := emit [e] st.

Definition set_fds (l : list nat) (st : state) : state :=
  {| argv := argv st; fs := fs st; open_fds := l;
     stdout := stdout st; trace := trace st |}.

(** [len(sys.argv)] *)
Definition len_argv : M nat := fun st => (Ok (length (argv st)), st).

(** [sys.argv[i]]: an index past the end raises [IndexError]. *)
Definition argv_index (i : nat) : M string :=
  fun st =>
    match nth_error (argv st) i with
    | Some a => (Ok a, log (EvArgvIndex i) st)
    | None => (Raise IndexError, log (EvArgvIndex i) st)
    end.

(** The expression statement [exit]: the name is looked up and its value
    dropped.  Nothing is called. *)
Definition name_exit : M unit := fun st => (Ok tt, log EvNameExit st).

Definition fresh_fd (st : state) : nat := S (list_max (open_fds st)).

(** [open(path, "rb")] *)
Definition open_rb (path : string) : M file :=
  fun st =>
    match fs st path with
    | Some (RegularFile content fault) =>
        let h := fresh_fd st in
        (Ok {| fd := h; data := content; fault_at := fault; pos := 0 |},
         log (EvOpen path (Some h)) (set_fds (h :: open_fds st) st))
    | Some Directory => (Raise IsADirectoryError, log (EvOpen path None) st)
    | Some Unreadable => (Raise PermissionError, log (EvOpen path None) st)
    | None => (Raise FileNotFoundError, log (EvOpen path None) st)
    end.

(** [f.close()] *)
Definition close (f : file) (st : state) : state :=
  log (EvClose (fd f)) (set_fds (remove Nat.eq_dec (fd f) (open_fds st)) st).

(** [with open(path, "rb") as f: body]: the file is closed when the body
    ends, whether it ends normally or by an exception; when [open] raises
    there is no file and the body does not run. *)
Definition with_open {A} (path : string) (body : file -> M A) : M A :=
  fun st =>
    match open_rb path st with
    | (Ok f, st1) =>
        match body f st1 with
        | (Ok a, st2) => (Ok a, close f st2)
        | (Raise e, st2) => (Raise e, close f st2)
        | (OutOfFuel, st2) => (OutOfFuel, st2)
        end
    | (Raise e, st1) => (Raise e, st1)
    | (OutOfFuel, st1) => (OutOfFuel, st1)
    end.

(** Whether a read of [n] bytes at the position of [f] touches the faulty
    offset. *)
Definition hits_fault (f : file) (n : nat) : bool :=
  match fault_at f with
  | Some k => (pos f <=? k) && (k <? pos f + n)
  | None => false
  end.

(** The file object after [n] more bytes were read. *)
Definition advance (f : file) (n : nat) : file :=
  {| fd := fd f; data := data f; fault_at := fault_at f; pos := pos f + n |}.

(** The bytes that [f.read(size)] is to return. *)
Definition next_chunk (f : file) (size : nat) : list byte :=
  firstn size (skipn (pos f) (data f)).

(** [f.read(size)]: up to [size] bytes from the position on, the empty
    bytes object at the end of the file. *)
Definition read (f : file) (size : nat) : M (list byte * file) :=
  fun st =>
    let chunk := next_chunk f size in
    if hits_fault f (length chunk)
    then (Raise OSError, log (EvRead (fd f) size None) st)
    else (Ok (chunk, advance f (length chunk)),
          log (EvRead (fd f) size (Some (length chunk))) st).

(** [hash_md5.update(chunk)] *)
Definition hash_update (o : md5_obj) (chunk : list byte) : M md5_obj :=
  fun st => (Ok (update o chunk), log (EvUpdate chunk) st).

Definition newline : string := String (ascii_of_nat 10) EmptyString.

(** [print(s)] writes [s] and a newline to standard output. *)
Definition print (s : string) : M unit :=
  fun st =>
    (Ok tt,
     {| argv := argv st; fs := fs st; open_fds := open_fds st;
        stdout := (stdout st ++ s ++ newline)%string;
        trace := trace st ++ [EvPrint s] |}).

(** What the interpreter writes to the error stream: the report of an
    exception that nothing caught. *)
Inductive diag : Type :=
| Traceback (e : exn).

(** What is seen of a finished process. *)
Record outcome : Type := mk_outcome {
  exit_status : Z;
  out : string;
  err : list diag;
  events : list event;
  left_open : list nat
}.

Definition boot (args : list string) (disk : string -> option node) : state :=
  {| argv := args; fs := disk; open_fds := []; stdout := EmptyString;
     trace := [] |}.

(** [python prog args...]: the module body runs; when it ends the status
    is 0, when an exception escapes it the interpreter prints the traceback
    to the error stream and the status is 1. *)
Definition python (prog : M unit) (args : list string)
    (disk : string -> option node) : option outcome :=
  match prog (boot args disk) with
  | (Ok _, st) =>
      Some {| exit_status := 0; out := stdout st; err := [];
              events := trace st; left_open := open_fds st |}
  | (Raise e, st) =>
      Some {| exit_status := 1; out := stdout st; err := [Traceback e];
              events := trace st; left_open := open_fds st |}
  | (OutOfFuel, _) => None
  end.

(** The handles that are open after the events [tr], from the handles
    [cur] on. *)
Fixpoint open_after (cur : list nat) (tr : list event) : list nat :=
  match tr with
  | [] => cur
  | EvOpen _ (Some h) :: r => open_after (h :: cur) r
  | EvClose h :: r => open_after (remove Nat.eq_dec h cur) r
  | _ :: r => open_after cur r
  end.

End Py.

Import Py.

(* ================================================================== *)
(** * The script *)
(* ================================================================== *)

Module Script.

(** [[
      for chunk in iter(lambda: f.read(size), b""):
          hash_md5.update(chunk)
    ]]
    One unit of [fuel] is one call of the lambda. *)
Fixpoint read_loop (size fuel : nat) (f : file) (hash_md5 : md5_obj)
    : M md5_obj :=
  match fuel with
  | O => fun st => (OutOfFuel, st)
  | S fuel' =>
      r <- read f size ;;
      match fst r with
      | [] => ret hash_md5
      | _ :: _ =>
          h <- hash_update hash_md5 (fst r) ;;
          read_loop size fuel' (snd r) h
      end
  end.

(** [def md5(fname)], with the size of the reads as a parameter.  The body
    opens [sys.argv[1]]; [fname] is not used. *)
Definition md5_sized (size fuel : nat) (fname : string) : M string :=
  let hash_md5 := md5_new in
  path <- argv_index 1 ;;
  h <- with_open path (fun f => read_loop size fuel f hash_md5) ;;
  ret (hexdigest h).

(** The function of the script reads 4096 bytes at a time. *)
Definition md5 (fuel : nat) (fname : string) : M string :=
  md5_sized 4096 fuel fname.

(** [[
      if len(sys.argv) != 1:
          exit

      print(md5(sys.argv[1]))
    ]] *)
Definition main (fuel : nat) : M unit :=
  n <- len_argv ;;
  (if negb (n =? 1) then name_exit else ret tt) ;;
  a <- argv_index 1 ;;
  d <- md5 fuel a ;;
  print d.

Definition run (fuel : nat) (args : list string)
    (disk : string -> option node) : option outcome :=
  python (main fuel) args disk.

End Script.

Import Script.

(* ================================================================== *)
(** * Vocabulary of the statements *)
(* ================================================================== *)

(** The bytes of [f] that are still to be read, and how many they are. *)
Definition rest (f : file) : list byte := skipn (pos f) (data f).
Definition remaining (f : file) : nat := length (data f) - pos f.

(** The hash object after the loop has fed it [bytes]: [update] is called
    for non-empty chunks only, so nothing is called when there are no bytes. *)
Definition feed (o : md5_obj) (bytes : list byte) : md5_obj :=
  match bytes with
  | [] => o
  | _ :: _ => update o bytes
  end.

(** The events of the loop over the handle [h]: reads of [h] and updates. *)
Definition loop_event (h : nat) (e : event) : Prop :=
  match e with
  | EvRead h' _ _ => h' = h
  | EvUpdate _ => True
  | _ => False
  end.

(** The chunks that were passed to [update], in order. *)
Fixpoint updates (tr : list event) : list (list byte) :=
  match tr with
  | [] => []
  | EvUpdate c :: r => c :: updates r
  | _ :: r => updates r
  end.

(** The three shapes of the events of one call of [md5]. *)
Inductive md5_events : list event -> Prop :=
| ME_no_argument :
    md5_events [EvArgvIndex 1]
| ME_open_fails (path : string) :
    md5_events [EvArgvIndex 1; EvOpen path None]
| ME_opened (path : string) (h : nat) (loop : list event) :
    Forall (loop_event h) loop ->
    md5_events ([EvArgvIndex 1; EvOpen path (Some h)] ++ loop ++ [EvClose h]).

(** The discipline of a scoped handle, read off the events [tr] of an
    operation: at no point of [tr] is more than one of its handles open,
    every read is from the one handle that is open then, and none is open
    at the end. *)
Definition scoped (tr : list event) : Prop :=
  open_after [] tr = []
  /\ (forall p q, tr = p ++ q -> length (open_after [] p) <= 1)
  /\ (forall p h n g q, tr = p ++ EvRead h n g :: q -> open_after [] p = [h]).

(** Fuel that is enough for the loop over the file that [path] names. *)
Definition file_size (disk : string -> option node) (path : string) : nat :=
  match disk path with
  | Some (RegularFile content _) => length content
  | _ => 0
  end.

Definition fuel_for (args : list string) (disk : string -> option node) : nat :=
  match nth_error args 1 with
  | Some path => S (file_size disk path)
  | None => 0
  end.

Definition openable (disk : string -> option node) (path : string) : bool :=
  match disk path with
  | Some (RegularFile _ _) => true
  | _ => false
  end.

(** A line of output that is a digest: 32 characters of [0-9a-f]. *)
Definition digest_line (d : string) : Prop :=
  String.length d = 32
  /\ Forall (fun c => is_lower_hex c = true) (list_ascii_of_string d).

(** The number of calls of [read] among the events. *)
Fixpoint reads (tr : list event) : nat :=
  match tr with
  | [] => 0
  | EvRead _ _ _ :: r => S (reads r)
  | _ :: r => reads r
  end.

(** Whether the faulty offset of a file, when it has one, lies inside its
    content, so that reading the file to its end runs into it. *)
Definition fault_bites (content : list byte) (fault : option nat) : bool :=
  match fault with
  | Some k => k <? length content
  | None => false
  end.

(** Whether [sys.argv[1]] is there and names a regular file that can be
    read to its end. *)
Definition readable (args : list string) (disk : string -> option node)
    : bool :=
  match nth_error args 1 with
  | Some path =>
      match disk path with
      | Some (RegularFile content fault) => negb (fault_bites content fault)
      | _ => false
      end
  | None => false
  end.

(** The file object that [open] returns in a process that has no file
    open yet. *)
Definition first_file (content : list byte) (fault : option nat) : file :=
  {| fd := 1; data := content; fault_at := fault; pos := 0 |}.

(** The events of a run up to and with a successful [open] of [path]. *)
Definition prologue (path : string) : list event :=
  [EvNameExit; EvArgvIndex 1; EvArgvIndex 1; EvOpen path (Some 1)].

(** ** Sample inputs *)

Definition abc : list byte := [x61; x62; x63].

Definition disk1 (p : string) : option node :=
  if String.eqb p "empty.bin" then Some (RegularFile [] None)
  else if String.eqb p "abc.txt" then Some (RegularFile abc None)
  else if String.eqb p "bad.bin" then Some (RegularFile abc (Some 1))
  else if String.eqb p "dir" then Some Directory
  else if String.eqb p "secret" then Some Unreadable
  else None.

(* ================================================================== *)
(** * Properties of the hash object *)
(* ================================================================== *)

Section Blocks.

Lemma blocks_fuel_enough (n m : nat) :
  forall l : list byte,
    length l <= n -> length l <= m -> blocks_fuel n l = blocks_fuel m l.
Proof.
  revert m. induction n as [|n IH]; intros m l Hn Hm.
  - destruct l as [|b l]; [|simpl in Hn; lia].
    destruct m; reflexivity.
  - destruct m as [|m].
    + destruct l as [|b l]; [reflexivity|simpl in Hm; lia].
    + cbn [blocks_fuel].
      destruct (64 <=? length l) eqn:E; [|reflexivity].
      apply Nat.leb_le in E.
      rewrite (IH m (skipn 64 l)); [reflexivity| |];
        rewrite length_skipn; lia.
Qed.

(** The equation that [split_blocks] was written to satisfy. *)
Lemma split_blocks_unfold (l : list byte) :
  split_blocks l =
    if 64 <=? length l
    then let (bs, r) := split_blocks (skipn 64 l) in (firstn 64 l :: bs, r)
    else ([], l).
Proof.
  unfold split_blocks.
  destruct (length l) as [|n] eqn:E.
  - reflexivity.
  - cbn [blocks_fuel]. rewrite E.
    destruct (64 <=? S n) eqn:E2; [|reflexivity].
    apply Nat.leb_le in E2.
    rewrite (blocks_fuel_enough n (length (skipn 64 l)) (skipn 64 l));
      [reflexivity| |]; rewrite length_skipn; lia.
Qed.

(** Cutting [a ++ b] into blocks is cutting [a], then cutting what [a]
    left over followed by [b]. *)
Lemma split_blocks_app (a b : list byte) :
  split_blocks (a ++ b) =
    let (bs, r) := split_blocks a in
    let (bs', r') := split_blocks (r ++ b) in
    (bs ++ bs', r').
Proof.
  remember (length a) as n eqn:Hn.
  revert a Hn. induction n as [n IH] using lt_wf_ind. intros a Hn.
  rewrite (split_blocks_unfold a).
  destruct (64 <=? length a) eqn:E.
  - apply Nat.leb_le in E.
    rewrite (split_blocks_unfold (a ++ b)).
    assert (E' : (64 <=? length (a ++ b)) = true)
      by (apply Nat.leb_le; rewrite length_app; lia).
    rewrite E'.
    rewrite firstn_app, skipn_app.
    replace (64 - length a) with 0 by lia.
    rewrite firstn_O, skipn_O, app_nil_r.
    rewrite (IH (length (skipn 64 a))) with (a := skipn 64 a);
      [|rewrite length_skipn; lia|reflexivity].
    destruct (split_blocks (skipn 64 a)) as [bs r].
    destruct (split_blocks (r ++ b)) as [bs' r'].
    reflexivity.
  - destruct (split_blocks (a ++ b)) as [bs' r']. reflexivity.
Qed.

(** What is left over is shorter than a block. *)
Lemma split_blocks_rest (l : list byte) :
  length (snd (split_blocks l)) < 64.
Proof.
  remember (length l) as n eqn:Hn.
  revert l Hn. induction n as [n IH] using lt_wf_ind. intros l Hn.
  rewrite split_blocks_unfold.
  destruct (64 <=? length l) eqn:E.
  - apply Nat.leb_le in E.
    specialize (IH (length (skipn 64 l))).
    rewrite length_skipn in IH.
    specialize (IH ltac:(lia) (skipn 64 l) ltac:(rewrite length_skipn; lia)).
    destruct (split_blocks (skipn 64 l)) as [bs r]. exact IH.
  - apply Nat.leb_gt in E. exact E.
Qed.

(** Every block is 64 bytes long, and the blocks followed by the rest are
    the input: nothing is lost and nothing is added. *)
Lemma split_blocks_concat (l : list byte) :
  concat (fst (split_blocks l)) ++ snd (split_blocks l) = l
  /\ Forall (fun b => length b = 64) (fst (split_blocks l)).
Proof.
  remember (length l) as n eqn:Hn.
  revert l Hn. induction n as [n IH] using lt_wf_ind. intros l Hn.
  rewrite split_blocks_unfold.
  destruct (64 <=? length l) eqn:E.
  - apply Nat.leb_le in E.
    specialize (IH (length (skipn 64 l))).
    rewrite length_skipn in IH.
    specialize (IH ltac:(lia) (skipn 64 l) ltac:(rewrite length_skipn; lia)).
    destruct (split_blocks (skipn 64 l)) as [bs r].
    cbn [fst snd concat] in *. destruct IH as [IH1 IH2]. split.
    + rewrite <- app_assoc, IH1. apply firstn_skipn.
    + constructor; [|exact IH2]. rewrite length_firstn. lia.
  - split; [reflexivity|constructor].
Qed.

End Blocks.

Section HashObject.

(** Two updates are one update with the two arguments joined. *)
Lemma update_app (o : md5_obj) (a b : list byte) :
  update (update o a) b = update o (a ++ b).
Proof.
  unfold update at 2 3.
  rewrite app_assoc, (split_blocks_app (buffer o ++ a) b).
  destruct (split_blocks (buffer o ++ a)) as [bs r].
  unfold update. cbn [buffer chaining count].
  destruct (split_blocks (r ++ b)) as [bs' r'].
  rewrite fold_left_app, length_app, Nat.add_assoc. reflexivity.
Qed.

Lemma update_new_nil : update md5_new [] = md5_new.
Proof. reflexivity. Qed.

(** Any number of updates is one update with all the arguments joined. *)
Lemma fold_update (chunks : list (list byte)) :
  forall (o : md5_obj) (a : list byte),
    fold_left update chunks (update o a) = update o (a ++ concat chunks).
Proof.
  induction chunks as [|c cs IH]; intros o a; cbn [fold_left concat].
  - rewrite app_nil_r. reflexivity.
  - rewrite update_app, IH, app_assoc. reflexivity.
Qed.

(** The object that was fed the message [msg] has the digest of [msg]. *)
Lemma digest_update (msg : list byte) :
  digest (update md5_new msg) = md5_sum msg.
Proof.
  unfold digest, md5_sum, update. cbn [buffer chaining count md5_new app].
  rewrite (split_blocks_app msg (pad_tail (length msg))).
  destruct (split_blocks msg) as [bs r]. cbn [buffer chaining count Nat.add].
  destruct (split_blocks (r ++ pad_tail (length msg))) as [bs' r'].
  cbn [fst]. rewrite fold_left_app. reflexivity.
Qed.

End HashObject.

Section Padding.

Lemma length_le64 (v : Z) : length (le64 v) = 8.
Proof. reflexivity. Qed.

Lemma length_pad_tail (n : nat) :
  length (pad_tail n) = 9 + Z.to_nat ((55 - Z.of_nat n) mod 64).
Proof.
  unfold pad_tail. cbn [length].
  rewrite length_app, repeat_length, length_le64. lia.
Qed.

Lemma length_concat_blocks (bs : list (list byte)) :
  Forall (fun b => length b = 64) bs -> length (concat bs) = 64 * length bs.
Proof.
  induction 1 as [|b bs Hb _ IH]; [reflexivity|].
  cbn [concat length]. rewrite length_app, Hb, IH. lia.
Qed.

(** A padded message is a whole number of blocks: [md5_sum] compresses
    all of it. *)
Lemma padded_whole_blocks (msg : list byte) :
  snd (split_blocks (msg ++ pad_tail (length msg))) = [].
Proof.
  set (l := msg ++ pad_tail (length msg)).
  destruct (split_blocks_concat l) as [Hcat Hlen].
  pose proof (split_blocks_rest l) as Hrest.
  apply length_concat_blocks in Hlen.
  apply (f_equal (@length byte)) in Hcat.
  rewrite length_app, Hlen in Hcat.
  unfold l in Hcat at 3. rewrite length_app, length_pad_tail in Hcat.
  destruct (snd (split_blocks l)) as [|b r]; [reflexivity|exfalso].
  cbn [length] in *.
  pose proof (Z.mod_pos_bound (55 - Z.of_nat (length msg)) 64 ltac:(lia)) as Hk.
  pose proof (Z.div_mod (55 - Z.of_nat (length msg)) 64 ltac:(lia)) as Hq.
  lia.
Qed.

End Padding.

Section Hex.

Local Open Scope Z_scope.

Lemma hex_digit_lower (d : Z) :
  0 <= d < 16 -> is_lower_hex (hex_digit d) = true.
Proof.
  intros Hd.
  assert (H : exists n, (n < 16)%nat /\ d = Z.of_nat n)
    by (exists (Z.to_nat d); lia).
  destruct H as (n & Hn & ->).
  do 16 (destruct n as [|n]; [reflexivity|]). lia.
Qed.

Lemma hex_byte_lower (b : Z) :
  0 <= b < 256 -> Forall (fun c => is_lower_hex c = true) (hex_byte b).
Proof.
  intros Hb. unfold hex_byte.
  repeat constructor; apply hex_digit_lower.
  - split; [apply Z.div_pos; lia|apply Z.div_lt_upper_bound; lia].
  - apply Z.mod_pos_bound. lia.
Qed.

Lemma word_bytes_range (w : Z) :
  Forall (fun b => 0 <= b < 256) (word_bytes w).
Proof.
  unfold word_bytes. repeat constructor; apply Z.mod_pos_bound; lia.
Qed.

Lemma chain_bytes_range (h : chain) :
  Forall (fun b => 0 <= b < 256) (chain_bytes h).
Proof.
  destruct h as [[[a b] c] d]. unfold chain_bytes.
  repeat (apply Forall_app; split); apply word_bytes_range.
Qed.

Lemma length_string_of_list_ascii (l : list ascii) :
  String.length (string_of_list_ascii l) = length l.
Proof. induction l as [|c l IH]; [reflexivity|]. cbn. now rewrite IH. Qed.

(** The rendering of a chaining value is 32 characters long. *)
Lemma hex_of_chain_length (h : chain) : String.length (hex_of_chain h) = 32%nat.
Proof.
  destruct h as [[[a b] c] d]. unfold hex_of_chain.
  rewrite length_string_of_list_ascii. reflexivity.
Qed.

(** Each of them is one of [0-9a-f]. *)
Lemma hex_of_chain_lower (h : chain) :
  Forall (fun c => is_lower_hex c = true)
         (list_ascii_of_string (hex_of_chain h)).
Proof.
  unfold hex_of_chain. rewrite list_ascii_of_string_of_list_ascii.
  pose proof (chain_bytes_range h) as Hr.
  induction Hr as [|b bs Hb _ IH]; cbn [flat_map]; [constructor|].
  apply Forall_app. split; [apply hex_byte_lower; exact Hb|exact IH].
Qed.

End Hex.

(* ================================================================== *)
(** * Properties of the read loop *)
(* ================================================================== *)

Section Loop.

Lemma emit_emit (a b : list event) (st : state) :
  emit b (emit a st) = emit (a ++ b) st.
Proof. unfold emit. cbn. rewrite app_assoc. reflexivity. Qed.

Lemma emit_nil (st : state) : emit [] st = st.
Proof. destruct st. unfold emit. cbn. rewrite app_nil_r. reflexivity. Qed.

(** One turn of the loop. *)
Lemma read_loop_S (size fuel : nat) (f : file) (h : md5_obj) (st : state) :
  read_loop size (S fuel) f h st =
    let chunk := next_chunk f size in
    if hits_fault f (length chunk)
    then (Raise OSError, emit [EvRead (fd f) size None] st)
    else match chunk with
         | [] => (Ok h, emit [EvRead (fd f) size (Some 0)] st)
         | _ :: _ =>
             read_loop size fuel (advance f (length chunk)) (update h chunk)
               (emit [EvRead (fd f) size (Some (length chunk)); EvUpdate chunk] st)
         end.
Proof.
  cbn [read_loop]. unfold bind, read, hash_update, ret, log. cbv zeta.
  destruct (hits_fault f (length (next_chunk f size))); [reflexivity|].
  cbn [fst snd].
  destruct (next_chunk f size) as [|b c] eqn:E; [reflexivity|].
  rewrite emit_emit. reflexivity.
Qed.

Lemma skipn_length_firstn {A} (n : nat) (l : list A) :
  skipn (length (firstn n l)) l = skipn n l.
Proof.
  destruct (Nat.le_gt_cases n (length l)) as [Hle|Hgt].
  - rewrite length_firstn, Nat.min_l by exact Hle. reflexivity.
  - rewrite firstn_all2 by lia. rewrite skipn_all, skipn_all2 by lia.
    reflexivity.
Qed.

Lemma next_chunk_rest (f : file) (size : nat) :
  next_chunk f size ++ rest (advance f (length (next_chunk f size))) = rest f.
Proof.
  unfold next_chunk, rest, advance. cbn [pos data].
  rewrite Nat.add_comm, <- skipn_skipn, skipn_length_firstn.
  apply firstn_skipn.
Qed.

Lemma next_chunk_nil (f : file) (size : nat) :
  0 < size -> next_chunk f size = [] -> rest f = [].
Proof.
  unfold next_chunk. fold (rest f). intros Hs E.
  destruct size as [|k]; [lia|].
  destruct (rest f); [reflexivity|discriminate].
Qed.

Lemma remaining_advance (f : file) (size : nat) :
  next_chunk f size <> [] ->
  remaining (advance f (length (next_chunk f size))) < remaining f.
Proof.
  unfold remaining, advance, next_chunk. cbn [pos data]. intros Hne.
  assert (Hlen : 0 < length (firstn size (skipn (pos f) (data f))))
    by (destruct (firstn size (skipn (pos f) (data f)));
        [congruence|cbn; lia]).
  rewrite length_firstn, length_skipn in *. lia.
Qed.

(** The loop changes nothing of the state but the log, and logs reads of
    its own handle and updates only. *)
Lemma read_loop_frame (size : nat) :
  forall fuel f h st r st',
    read_loop size fuel f h st = (r, st') ->
    exists tr, st' = emit tr st /\ Forall (loop_event (fd f)) tr.
Proof.
  induction fuel as [|fuel IH]; intros f h st r st' Hrun.
  - inversion Hrun; subst. exists []. now rewrite emit_nil.
  - rewrite read_loop_S in Hrun. cbv zeta in Hrun.
    destruct (hits_fault f (length (next_chunk f size))).
    { inversion Hrun; subst. eexists. split; [reflexivity|].
      repeat constructor. }
    destruct (next_chunk f size) as [|b c] eqn:E.
    { inversion Hrun; subst. eexists. split; [reflexivity|].
      repeat constructor. }
    apply IH in Hrun. destruct Hrun as (tr & -> & Htr).
    rewrite emit_emit. eexists. split; [reflexivity|].
    repeat constructor; exact Htr.
Qed.

(** With more fuel than bytes to read the loop does not run out of it. *)
Lemma read_loop_total (size : nat) (Hsize : 0 < size) :
  forall fuel f h st,
    remaining f < fuel -> fst (read_loop size fuel f h st) <> OutOfFuel.
Proof.
  induction fuel as [|fuel IH]; intros f h st Hfuel; [lia|].
  rewrite read_loop_S. cbv zeta.
  destruct (hits_fault f (length (next_chunk f size))); [discriminate|].
  destruct (next_chunk f size) as [|b c] eqn:E; [discriminate|].
  rewrite <- E. apply IH.
  assert (Hne : next_chunk f size <> []) by congruence.
  pose proof (remaining_advance f size Hne). lia.
Qed.

(** Fuel beyond what the loop uses changes nothing. *)
Lemma read_loop_mono (size : nat) :
  forall fuel fuel' f h st r st',
    read_loop size fuel f h st = (r, st') -> r <> OutOfFuel ->
    fuel <= fuel' -> read_loop size fuel' f h st = (r, st').
Proof.
  induction fuel as [|fuel IH]; intros fuel' f h st r st' Hrun Hr Hle.
  - inversion Hrun; subst. congruence.
  - destruct fuel' as [|fuel']; [lia|].
    rewrite read_loop_S in *. cbv zeta in *.
    destruct (hits_fault f (length (next_chunk f size))); [exact Hrun|].
    destruct (next_chunk f size) as [|b c]; [exact Hrun|].
    apply (IH fuel'); [exact Hrun|exact Hr|lia].
Qed.

Lemma feed_app (o : md5_obj) (c r : list byte) :
  c <> [] -> feed (update o c) r = feed o (c ++ r).
Proof.
  intros Hc. destruct c as [|b c]; [congruence|].
  destruct r as [|b' r]; cbn [feed app].
  - rewrite app_nil_r. reflexivity.
  - apply (update_app o (b :: c) (b' :: r)).
Qed.

Lemma updates_app (a b : list event) : updates (a ++ b) = updates a ++ updates b.
Proof.
  induction a as [|e a IH]; [reflexivity|].
  destruct e; cbn [app updates]; rewrite IH; reflexivity.
Qed.

(** On a file without a fault the loop ends normally, the object has been
    fed the bytes from the position of the file to its end, and the chunks
    it was fed are non-empty and are those bytes when joined. *)
Lemma read_loop_clean (size : nat) (Hsize : 0 < size) :
  forall fuel f h st,
    fault_at f = None -> remaining f < fuel ->
    exists tr,
      read_loop size fuel f h st = (Ok (feed h (rest f)), emit tr st)
      /\ concat (updates tr) = rest f
      /\ Forall (fun c => c <> []) (updates tr).
Proof.
  induction fuel as [|fuel IH]; intros f h st Hfault Hfuel; [lia|].
  rewrite read_loop_S. cbv zeta.
  assert (Hf : forall n, hits_fault f n = false)
    by (intros n; unfold hits_fault; now rewrite Hfault).
  rewrite Hf.
  destruct (next_chunk f size) as [|b c] eqn:E.
  - apply (next_chunk_nil f size Hsize) in E. rewrite E.
    eexists. split; [reflexivity|]. split; [reflexivity|constructor].
  - assert (Hne : next_chunk f size <> []) by congruence.
    pose proof (remaining_advance f size Hne) as Hrem.
    pose proof (next_chunk_rest f size) as Hrest.
    rewrite E in Hrem, Hrest.
    destruct (IH (advance f (length (b :: c))) (update h (b :: c))
                 (emit [EvRead (fd f) size (Some (length (b :: c)));
                        EvUpdate (b :: c)] st))
      as (tr & Hrun & Hcat & Hnon); [exact Hfault|lia|].
    rewrite Hrun, emit_emit, feed_app, Hrest by discriminate.
    eexists. split; [reflexivity|].
    cbn [app updates concat]. rewrite Hcat. split; [exact Hrest|].
    constructor; [discriminate|exact Hnon].
Qed.

(** When the loop ends normally, the last thing it did was a read that
    returned no bytes. *)
Lemma read_loop_last_read (size : nat) :
  forall fuel f h st h' st',
    read_loop size fuel f h st = (Ok h', st') ->
    exists tr, st' = emit (tr ++ [EvRead (fd f) size (Some 0)]) st.
Proof.
  induction fuel as [|fuel IH]; intros f h st h' st' Hrun; [discriminate|].
  rewrite read_loop_S in Hrun. cbv zeta in Hrun.
  destruct (hits_fault f (length (next_chunk f size))); [discriminate|].
  destruct (next_chunk f size) as [|b c] eqn:E.
  - inversion Hrun; subst. exists []. reflexivity.
  - apply IH in Hrun. destruct Hrun as (tr & ->).
    rewrite emit_emit. eexists (_ :: _ :: tr). reflexivity.
Qed.

End Loop.

(* ================================================================== *)
(** * Properties of [md5] *)
(* ================================================================== *)

Section Md5.

Lemma fresh_fd_notin (st : state) : ~ In (fresh_fd st) (open_fds st).
Proof.
  unfold fresh_fd. intros Hin.
  pose proof (proj1 (list_max_le (open_fds st) (list_max (open_fds st)))
                    (le_n _)) as Hmax.
  rewrite Forall_forall in Hmax. apply Hmax in Hin. lia.
Qed.

(** Closing the file that was opened last gives back the handles there
    were before. *)
Lemma close_emit_open (f : file) (tr : list event) (e : event) (st : state) :
  fd f = fresh_fd st ->
  close f (emit tr (log e (set_fds (fd f :: open_fds st) st)))
  = emit ([e] ++ tr ++ [EvClose (fd f)]) st.
Proof.
  intros Hfd. unfold close, log, emit, set_fds.
  cbn [argv fs open_fds stdout trace remove].
  destruct (Nat.eq_dec (fd f) (fd f)) as [_|Hne]; [|congruence].
  rewrite notin_remove by (rewrite Hfd; apply fresh_fd_notin).
  rewrite <- !app_assoc. reflexivity.
Qed.

(** The body of [md5], statement by statement. *)
Lemma md5_sized_unfold (size fuel : nat) (fname : string) (st : state) :
  md5_sized size fuel fname st =
    match nth_error (argv st) 1 with
    | None => (Raise IndexError, emit [EvArgvIndex 1] st)
    | Some path =>
        let st1 := emit [EvArgvIndex 1] st in
        match fs st path with
        | Some (RegularFile content fault) =>
            let f := {| fd := fresh_fd st1; data := content;
                        fault_at := fault; pos := 0 |} in
            match read_loop size fuel f md5_new
                    (log (EvOpen path (Some (fd f)))
                         (set_fds (fd f :: open_fds st1) st1)) with
            | (Ok h, st2) => (Ok (hexdigest h), close f st2)
            | (Raise e, st2) => (Raise e, close f st2)
            | (OutOfFuel, st2) => (OutOfFuel, st2)
            end
        | Some Directory =>
            (Raise IsADirectoryError, emit [EvArgvIndex 1; EvOpen path None] st)
        | Some Unreadable =>
            (Raise PermissionError, emit [EvArgvIndex 1; EvOpen path None] st)
        | None =>
            (Raise FileNotFoundError, emit [EvArgvIndex 1; EvOpen path None] st)
        end
    end.
Proof.
  unfold md5_sized, bind, argv_index, with_open, open_rb, ret, log.
  destruct (nth_error (argv st) 1) as [path|]; [|reflexivity].
  cbn [fs emit]. cbv zeta.
  destruct (fs st path) as [[content fault| |]|];
    try (rewrite emit_emit; reflexivity).
  cbn [fd].
  destruct (read_loop size fuel _ md5_new _) as [[h|e|] st2]; reflexivity.
Qed.

(** A call of [md5] that ends changes nothing of the state but the log,
    and what it logs has one of the three shapes. *)
Lemma md5_sized_frame (size fuel : nat) (fname : string) (st : state) r st' :
  md5_sized size fuel fname st = (r, st') -> r <> OutOfFuel ->
  exists tr, st' = emit tr st /\ md5_events tr.
Proof.
  rewrite md5_sized_unfold.
  destruct (nth_error (argv st) 1) as [path|].
  2:{ intros H _. inversion H; subst. eexists. split; [reflexivity|constructor]. }
  cbv zeta.
  destruct (fs st path) as [[content fault| |]|].
  2-4: intros H _; inversion H; subst; eexists;
       (split; [reflexivity|constructor]).
  cbn [fd].
  set (f := {| fd := fresh_fd (emit [EvArgvIndex 1] st); data := content;
               fault_at := fault; pos := 0 |}).
  destruct (read_loop size fuel f md5_new _) as [r2 st2] eqn:Hloop.
  apply read_loop_frame in Hloop. destruct Hloop as (tr & -> & Htr).
  change (fresh_fd (emit [EvArgvIndex 1] st)) with (fd f).
  assert (Hclose :
    close f (emit tr (log (EvOpen path (Some (fd f)))
                          (set_fds (fd f :: open_fds (emit [EvArgvIndex 1] st))
                                   (emit [EvArgvIndex 1] st))))
    = emit ([EvArgvIndex 1; EvOpen path (Some (fd f))] ++ tr ++ [EvClose (fd f)]) st).
  { rewrite close_emit_open by reflexivity. rewrite emit_emit. reflexivity. }
  destruct r2 as [h|e|]; intros H Hr; inversion H; subst; try congruence;
    eexists; (split; [exact Hclose|constructor; exact Htr]).
Qed.

(** With the fuel of [fuel_for], [md5] ends. *)
Lemma md5_sized_total (size : nat) (Hsize : 0 < size) fuel fname st :
  fuel_for (argv st) (fs st) <= fuel ->
  fst (md5_sized size fuel fname st) <> OutOfFuel.
Proof.
  unfold fuel_for, file_size. rewrite md5_sized_unfold.
  destruct (nth_error (argv st) 1) as [path|]; [|discriminate].
  cbv zeta.
  destruct (fs st path) as [[content fault| |]|]; try discriminate.
  intros Hfuel.
  match goal with
  | |- context [read_loop size fuel ?f ?h ?s] =>
      pose proof (read_loop_total size Hsize fuel f h s) as Htot;
      destruct (read_loop size fuel f h s) as [[h'|e|] st2]
  end; try discriminate.
  unfold remaining in Htot. cbn [fst data pos] in Htot.
  exfalso. apply Htot; [lia|reflexivity].
Qed.

(** More fuel does not change the result of a call that ended. *)
Lemma md5_sized_mono (size fuel fuel' : nat) fname st r st' :
  md5_sized size fuel fname st = (r, st') -> r <> OutOfFuel ->
  fuel <= fuel' -> md5_sized size fuel' fname st = (r, st').
Proof.
  rewrite !md5_sized_unfold.
  destruct (nth_error (argv st) 1) as [path|]; [|tauto].
  cbv zeta.
  destruct (fs st path) as [[content fault| |]|]; try tauto.
  match goal with
  | |- context [read_loop size fuel ?f ?h ?s] =>
      destruct (read_loop size fuel f h s) as [r2 st2] eqn:Hloop
  end.
  intros H Hr Hle.
  assert (Hr2 : r2 <> OutOfFuel)
    by (destruct r2; inversion H; subst; congruence).
  rewrite (read_loop_mono size fuel fuel' _ _ _ _ _ Hloop Hr2 Hle).
  exact H.
Qed.

(** What [md5] returns is the [hexdigest] of a hash object. *)
Lemma md5_sized_value (size fuel : nat) fname st d st' :
  md5_sized size fuel fname st = (Ok d, st') -> exists h, d = hexdigest h.
Proof.
  rewrite md5_sized_unfold.
  destruct (nth_error (argv st) 1) as [path|]; [|discriminate].
  cbv zeta.
  destruct (fs st path) as [[content fault| |]|]; try discriminate.
  match goal with
  | |- context [read_loop size fuel ?f ?h ?s] =>
      destruct (read_loop size fuel f h s) as [[h'|e|] st2]
  end; try discriminate.
  intros H. inversion H. eexists. reflexivity.
Qed.

Lemma hexdigest_feed_new (B : list byte) :
  hexdigest (feed md5_new B) = hex_of_chain (md5_sum B).
Proof.
  unfold hexdigest. rewrite <- digest_update.
  destruct B; reflexivity.
Qed.

(** When [sys.argv[1]] names a file with the bytes [B] and no fault,
    [md5] returns the digest of [B], and the chunks that it passed to
    [update] are non-empty and are [B] when joined. *)
Lemma md5_sized_digest (size : nat) (Hsize : 0 < size) fuel fname st path B :
  nth_error (argv st) 1 = Some path ->
  fs st path = Some (RegularFile B None) ->
  length B < fuel ->
  exists tr,
    md5_sized size fuel fname st
    = (Ok (hex_of_chain (md5_sum B)), emit tr st)
    /\ md5_events tr
    /\ concat (updates tr) = B
    /\ Forall (fun c => c <> []) (updates tr).
Proof.
  intros Harg Hfs Hfuel.
  rewrite md5_sized_unfold, Harg. cbv zeta. rewrite Hfs.
  set (st1 := emit [EvArgvIndex 1] st).
  set (f := {| fd := fresh_fd st1; data := B; fault_at := None; pos := 0 |}).
  destruct (read_loop_clean size Hsize fuel f md5_new
              (log (EvOpen path (Some (fd f)))
                   (set_fds (fd f :: open_fds st1) st1)))
    as (tr & Hrun & Hcat & Hnon); [reflexivity|cbn; lia|].
  rewrite Hrun. change (rest f) with B in *.
  rewrite hexdigest_feed_new.
  rewrite close_emit_open by reflexivity. unfold st1. rewrite emit_emit.
  eexists. split; [reflexivity|]. split; [|split].
  - apply (ME_opened path (fd f) tr).
    destruct (read_loop_frame _ _ _ _ _ _ _ Hrun) as (tr' & Heq & Htr').
    apply (f_equal trace) in Heq. cbn [trace emit log set_fds] in Heq.
    apply app_inv_head in Heq. subst tr'. exact Htr'.
  - cbn [app updates]. rewrite updates_app. cbn [updates].
    rewrite app_nil_r. exact Hcat.
  - cbn [app updates]. rewrite updates_app. cbn [updates].
    rewrite app_nil_r. exact Hnon.
Qed.

End Md5.

(* ================================================================== *)
(** * The discipline of the file handle *)
(* ================================================================== *)

Section Handles.

Lemma open_after_app (a b : list event) :
  forall cur, open_after cur (a ++ b) = open_after (open_after cur a) b.
Proof.
  induction a as [|e a IH]; intros cur; [reflexivity|].
  destruct e as [| | path [h|] | | | |]; cbn [app open_after]; apply IH.
Qed.

Lemma open_after_loop (h : nat) (loop : list event) :
  Forall (loop_event h) loop -> forall cur, open_after cur loop = cur.
Proof.
  induction 1 as [|e loop He _ IH]; intros cur; [reflexivity|].
  destruct e; cbn in He; try contradiction; cbn [open_after]; apply IH.
Qed.

Lemma remove_only (h : nat) : remove Nat.eq_dec h [h] = [].
Proof.
  cbn. destruct (Nat.eq_dec h h) as [_|Hne]; [reflexivity|congruence].
Qed.

(** Before the [close] the handle is open; after it nothing is. *)
Lemma open_after_prefix (h : nat) (loop : list event) :
  Forall (loop_event h) loop ->
  forall p q, p ++ q = loop ++ [EvClose h] ->
    open_after [h] p = [h] \/ (q = [] /\ open_after [h] p = []).
Proof.
  induction 1 as [|e loop He _ IH]; intros p q Hpq.
  - destruct p as [|e' p]; [left; reflexivity|].
    cbn in Hpq. inversion Hpq as [[He' Hp]].
    apply app_eq_nil in Hp. destruct Hp as [-> ->].
    right. split; [reflexivity|]. cbn [open_after]. apply remove_only.
  - destruct p as [|e' p]; [left; reflexivity|].
    cbn [app] in Hpq. inversion Hpq as [[He' Hp]]. subst e'.
    specialize (IH p q Hp).
    destruct e; cbn in He; try contradiction; cbn [open_after]; exact IH.
Qed.

Lemma md5_events_scoped (tr : list event) : md5_events tr -> scoped tr.
Proof.
  intros [|path|path h loop Hloop]; unfold scoped.
  - split; [reflexivity|]. split.
    + intros [|e [|e' p]] q Hpq; inversion Hpq; subst; cbn; lia.
    + intros [|e [|e' p]] h n g q Hpq; inversion Hpq.
  - split; [reflexivity|]. split.
    + intros [|e [|e' [|e2 p]]] q Hpq; inversion Hpq; subst; cbn; lia.
    + intros [|e [|e' [|e2 p]]] h n g q Hpq; inversion Hpq.
  - split; [|split].
    + cbn [app open_after]. rewrite open_after_app.
      rewrite (open_after_loop h loop Hloop). cbn [open_after].
      apply remove_only.
    + intros [|e [|e' p]] q Hpq; [cbn; lia| |].
      * inversion Hpq; subst. cbn. lia.
      * cbn [app] in Hpq. inversion Hpq as [[He He' Hp]]. subst e e'.
        cbn [open_after].
        destruct (open_after_prefix h loop Hloop p q (eq_sym Hp))
          as [->|[_ ->]]; cbn; lia.
    + intros [|e [|e' p]] h' n g q Hpq; [inversion Hpq|inversion Hpq|].
      cbn [app] in Hpq. inversion Hpq as [[He He' Hp]]. subst e e'.
      cbn [open_after].
      assert (Hin : In (EvRead h' n g) (loop ++ [EvClose h]))
        by (rewrite Hp; apply in_elt).
      apply in_app_or in Hin. destruct Hin as [Hin|[Habs|[]]];
        [|discriminate].
      rewrite Forall_forall in Hloop. apply Hloop in Hin. cbn in Hin. subst h'.
      destruct (open_after_prefix h loop (proj2 (Forall_forall _ _) Hloop)
                                  p _ (eq_sym Hp)) as [->|[Habs _]];
        [reflexivity|discriminate].
Qed.

End Handles.

(* ================================================================== *)
(** * Properties of a run of the script *)
(* ================================================================== *)

Section Run.

(** Without a second element in [sys.argv] the run ends at [sys.argv[1]]. *)
Lemma run_without_argument (fuel : nat) (args : list string) disk :
  length args < 2 ->
  run fuel args disk =
    Some {| exit_status := 1; out := EmptyString;
            err := [Traceback IndexError];
            events := (if length args =? 1 then [] else [EvNameExit])
                      ++ [EvArgvIndex 1];
            left_open := [] |}.
Proof.
  destruct args as [|a [|b l]]; cbn [length]; intros H;
    [reflexivity|reflexivity|lia].
Qed.

(** With one the run is the call of [md5] and, when it returns, the
    [print]. *)
Lemma run_with_argument (fuel : nat) (a path : string) (l : list string) disk :
  run fuel (a :: path :: l) disk =
    match md5 fuel path
            (emit [EvNameExit; EvArgvIndex 1] (boot (a :: path :: l) disk)) with
    | (Ok d, st) =>
        Some {| exit_status := 0;
                out := (stdout st ++ d ++ newline)%string; err := [];
                events := trace st ++ [EvPrint d]; left_open := open_fds st |}
    | (Raise e, st) =>
        Some {| exit_status := 1; out := stdout st; err := [Traceback e];
                events := trace st; left_open := open_fds st |}
    | (OutOfFuel, _) => None
    end.
Proof.
  unfold run, python, main, bind, len_argv, name_exit, argv_index, print, log.
  cbn [argv boot length Nat.eqb negb nth_error].
  rewrite emit_emit. cbn [app].
  change (argv (emit [EvNameExit] (boot (a :: path :: l) disk)))
    with (a :: path :: l).
  cbv iota beta.
  destruct (md5 fuel path _) as [[d|e|] st]; reflexivity.
Qed.

(** Every finished run is of one of two kinds. *)
Lemma run_outcome (fuel : nat) (args : list string) disk (o : outcome) :
  run fuel args disk = Some o ->
  left_open o = [] /\
  ((exit_status o = 0%Z /\ err o = [] /\
    exists h tr, out o = (hexdigest h ++ newline)%string
              /\ events o = [EvNameExit; EvArgvIndex 1] ++ tr
                            ++ [EvPrint (hexdigest h)]
              /\ md5_events tr)
   \/
   (exit_status o = 1%Z /\ out o = EmptyString /\
    exists e, err o = [Traceback e])).
Proof.
  destruct args as [|a [|path l]].
  1-2: rewrite run_without_argument by (cbn; lia);
       intros H; inversion H; subst; cbn;
       (split; [reflexivity|right; repeat split; eexists; reflexivity]).
  rewrite run_with_argument. unfold md5.
  destruct (md5_sized 4096 fuel path _) as [r st] eqn:Hmd5.
  destruct r as [d|e|]; [| |discriminate].
  - destruct (md5_sized_value _ _ _ _ _ _ Hmd5) as (h & ->).
    apply md5_sized_frame in Hmd5; [|discriminate].
    destruct Hmd5 as (tr & -> & Htr).
    intros H; inversion H; subst; cbn. split; [reflexivity|left].
    repeat split. exists h, tr. repeat split. exact Htr.
  - apply md5_sized_frame in Hmd5; [|discriminate].
    destruct Hmd5 as (tr & -> & Htr).
    intros H; inversion H; subst; cbn. split; [reflexivity|right].
    repeat split. eexists. reflexivity.
Qed.

(** With the fuel of [fuel_for] the run finishes. *)
Lemma run_finishes (fuel : nat) (args : list string) disk :
  fuel_for args disk <= fuel -> exists o, run fuel args disk = Some o.
Proof.
  destruct args as [|a [|path l]].
  1-2: intros _; rewrite run_without_argument by (cbn; lia);
       eexists; reflexivity.
  intros Hfuel. rewrite run_with_argument. unfold md5.
  pose proof (md5_sized_total 4096 ltac:(lia) fuel path
                (emit [EvNameExit; EvArgvIndex 1] (boot (a :: path :: l) disk))
                Hfuel) as Htot.
  destruct (md5_sized 4096 fuel path _) as [[d|e|] st];
    [eexists; reflexivity|eexists; reflexivity|].
  exfalso. apply Htot. reflexivity.
Qed.

Lemma hexdigest_line (h : md5_obj) : digest_line (hexdigest h).
Proof.
  split; [apply hex_of_chain_length|apply hex_of_chain_lower].
Qed.

End Run.

(* ================================================================== *)
(** * The statements of the specification *)
(* ================================================================== *)

(** ** The digest that [md5] returns *)

(** When [sys.argv[1]] names a file with the bytes [B], [md5] returns the
    MD5 digest of [B], whatever its argument [fname] is. *)
Lemma md5_digest_of_argv1 (fuel : nat) (fname path : string) (st : state)
    (B : list byte) :
  nth_error (argv st) 1 = Some path ->
  fs st path = Some (RegularFile B None) ->
  length B < fuel ->
  fst (md5 fuel fname st) = Ok (hex_of_chain (md5_sum B)).
Proof.
  intros Harg Hfs Hfuel.
  destruct (md5_sized_digest 4096 ltac:(lia) fuel fname st path B
              Harg Hfs Hfuel) as (tr & Hrun & _).
  unfold md5. rewrite Hrun. reflexivity.
Qed.

(** A run whose path argument names a file with the bytes [B] prints the
    MD5 digest of [B] and ends with status 0: in the one call of the script
    the argument of [md5] is [sys.argv[1]] itself. *)
Lemma run_prints_digest (fuel : nat) (args : list string)
    (disk : string -> option node) (path : string) (B : list byte) :
  nth_error args 1 = Some path ->
  disk path = Some (RegularFile B None) ->
  length B < fuel ->
  exists o,
    run fuel args disk = Some o
    /\ exit_status o = 0%Z
    /\ out o = (hex_of_chain (md5_sum B) ++ newline)%string.
Proof.
  intros Harg Hdisk Hfuel.
  destruct args as [|a [|p l]]; try discriminate.
  cbn in Harg. inversion Harg; subst p.
  rewrite run_with_argument. unfold md5.
  destruct (md5_sized_digest 4096 ltac:(lia) fuel path
              (emit [EvNameExit; EvArgvIndex 1] (boot (a :: path :: l) disk))
              path B eq_refl Hdisk Hfuel) as (tr & Hrun & _).
  rewrite Hrun. eexists. split; [reflexivity|]. split; reflexivity.
Qed.

(** The two digests that the specification quotes. *)
Lemma known_vectors :
  hex_of_chain (md5_sum []) = "d41d8cd98f00b204e9800998ecf8427e"%string
  /\ hex_of_chain (md5_sum abc) = "900150983cd24fb0d6963f7d28e17f72"%string.
Proof. split; vm_compute; reflexivity. Qed.

(** A message of several blocks, against the value that [hashlib] gives
    for 200 bytes [a]. *)
Lemma md5_sum_multi_block :
  hex_of_chain (md5_sum (repeat x61 200))
  = "887f30b43b2867f4a9accceee7d16e6c"%string.
Proof. vm_compute. reflexivity. Qed.

(** A run on the empty file and a run on the file [abc] print them. *)
Lemma known_vectors_printed :
  option_map out (run 2 ["md5.py"; "empty.bin"]%string disk1)
  = Some ("d41d8cd98f00b204e9800998ecf8427e" ++ newline)%string
  /\ option_map out (run 2 ["md5.py"; "abc.txt"]%string disk1)
     = Some ("900150983cd24fb0d6963f7d28e17f72" ++ newline)%string.
Proof. split; vm_compute; reflexivity. Qed.

(** C1, at the input where the code departs from it.  The claim: [md5]
    returns the MD5 digest of the bytes of the file at the path it is given.
    The code: called with the path of a file that holds [abc] in a process
    whose [sys.argv[1]] names an empty file, [md5] returns the digest of the
    empty file, not the digest of [abc]. *)
Theorem md5_opens_argv_not_fname :
  disk1 "abc.txt"%string = Some (RegularFile abc None)
  /\ hex_of_chain (md5_sum abc) = "900150983cd24fb0d6963f7d28e17f72"%string
  /\ fst (md5 2 "abc.txt" (boot ["md5.py"; "empty.bin"]%string disk1))
     = Ok "d41d8cd98f00b204e9800998ecf8427e"%string.
Proof. repeat split; vm_compute; reflexivity. Qed.

(** ** Chunks *)

(** C2.  For every content [B] and every positive size of the reads, the
    loop over a file that holds [B] ends with the hash object that one
    [update] with all of [B] gives; the chunks it passed to [update] are
    non-empty and are [B] when joined, in order; the digest of that object
    is the MD5 digest of [B]; and any way of cutting bytes into chunks
    gives the object of the one-piece update. *)
Theorem chunk_framing_irrelevant (B : list byte) (size fuel h0 : nat)
    (st : state) :
  0 < size -> length B < fuel ->
  (exists tr,
     read_loop size fuel
       {| fd := h0; data := B; fault_at := None; pos := 0 |} md5_new st
     = (Ok (update md5_new B), emit tr st)
     /\ concat (updates tr) = B
     /\ Forall (fun c => c <> []) (updates tr))
  /\ hexdigest (update md5_new B) = hex_of_chain (md5_sum B)
  /\ (forall chunks : list (list byte),
        concat chunks = B -> fold_left update chunks md5_new = update md5_new B).
Proof.
  intros Hsize Hfuel. split; [|split].
  - destruct (read_loop_clean size Hsize fuel
                {| fd := h0; data := B; fault_at := None; pos := 0 |}
                md5_new st) as (tr & Hrun & Hcat & Hnon);
      [reflexivity|cbn; lia|].
    exists tr. split; [|split; assumption].
    rewrite Hrun. f_equal. f_equal. unfold rest. cbn [pos data skipn].
    destruct B; reflexivity.
  - unfold hexdigest. rewrite digest_update. reflexivity.
  - intros chunks <-.
    rewrite <- update_new_nil at 1. rewrite fold_update. reflexivity.
Qed.

Lemma chunk_framing_irrelevant_witness :
  (exists tr,
     read_loop 2 4 {| fd := 3; data := abc; fault_at := None; pos := 0 |}
               md5_new (boot [] disk1)
     = (Ok (update md5_new abc), emit tr (boot [] disk1))
     /\ concat (updates tr) = abc
     /\ Forall (fun c => c <> []) (updates tr))
  /\ hexdigest (update md5_new abc) = hex_of_chain (md5_sum abc)
  /\ (forall chunks : list (list byte),
        concat chunks = abc ->
        fold_left update chunks md5_new = update md5_new abc).
Proof.
  apply (chunk_framing_irrelevant abc 2 4 3 (boot [] disk1)).
  - lia.
  - simpl. lia.
Defined.

(** ** The missing argument *)

(** C3, at the input where the code departs from it.  The claim: without
    a path argument the program ends with a non-zero status and a usage
    message, never by an unhandled crash.  The code: with [sys.argv] of
    length 1 the run ends at [sys.argv[1]] by an [IndexError] that nothing
    catches; the status is 1, and all there is on the error stream is the
    traceback of the interpreter. *)
Theorem missing_argument_crashes (fuel : nat) (prog : string)
    (disk : string -> option node) :
  run fuel [prog] disk =
    Some {| exit_status := 1; out := EmptyString;
            err := [Traceback IndexError];
            events := [EvArgvIndex 1]; left_open := [] |}.
Proof. reflexivity. Qed.

(** C4, at the input where the code departs from it.  The claim: with
    the argument absent the run first reaches the bare [exit] expression
    that the argument-count check guards, and then reads [sys.argv[1]].
    The code: with [sys.argv] of length 1 the check [len(sys.argv) != 1] is
    false, the expression it guards is not reached, and the read of
    [sys.argv[1]] is all that the run does. *)
Theorem exit_skipped_when_argument_absent (fuel : nat) (prog : string)
    (disk : string -> option node) :
  exists o,
    run fuel [prog] disk = Some o
    /\ events o = [EvArgvIndex 1]
    /\ ~ In EvNameExit (events o).
Proof.
  rewrite run_without_argument by (cbn; lia).
  eexists. split; [reflexivity|]. cbn. split; [reflexivity|].
  intros [H|[]]. discriminate.
Qed.

(** The check is the wrong way round: the bare [exit] expression is
    reached exactly when [sys.argv] has a length other than 1; there it
    does not end the run, and [sys.argv[1]] is read next. *)
Lemma exit_reached_iff_length_not_1 (fuel : nat) (args : list string)
    (disk : string -> option node) (o : outcome) :
  run fuel args disk = Some o ->
  (length args = 1 -> events o = [EvArgvIndex 1])
  /\ (length args <> 1 ->
        exists rest, events o = EvNameExit :: EvArgvIndex 1 :: rest).
Proof.
  intros Hrun.
  destruct args as [|a [|path l]].
  - rewrite run_without_argument in Hrun by (cbn; lia).
    inversion Hrun; subst o. cbn. split; [discriminate|].
    intros _. exists []. reflexivity.
  - rewrite run_without_argument in Hrun by (cbn; lia).
    inversion Hrun; subst o. cbn.
    split; [intros _; reflexivity|congruence].
  - split; [cbn; discriminate|]. intros _.
    destruct (run_outcome _ _ _ _ Hrun) as [_ [Hok|Hfail]].
    + destruct Hok as (_ & _ & h & tr & _ & Hev & _).
      rewrite Hev. eexists. reflexivity.
    + rewrite run_with_argument in Hrun. unfold md5 in Hrun.
      destruct (md5_sized 4096 fuel path _) as [r st] eqn:Hmd5.
      destruct Hfail as (Hst & _).
      destruct r as [d|e|]; inversion Hrun; subst o; [discriminate|].
      apply md5_sized_frame in Hmd5; [|discriminate].
      destruct Hmd5 as (tr & -> & _). cbn. eexists. reflexivity.
Qed.

(** ** All or nothing *)

(** C5.  Every run finishes, and in one of two ways: with status 0 and,
    on standard output, one digest line and nothing else; or with a status
    other than 0 and nothing on standard output. *)
Theorem run_all_or_nothing (fuel : nat) (args : list string)
    (disk : string -> option node) :
  fuel_for args disk <= fuel ->
  exists o,
    run fuel args disk = Some o
    /\ ((exit_status o = 0%Z
         /\ exists d, digest_line d /\ out o = (d ++ newline)%string)
        \/ (exit_status o <> 0%Z /\ out o = EmptyString)).
Proof.
  intros Hfuel.
  destruct (run_finishes fuel args disk Hfuel) as (o & Hrun).
  exists o. split; [exact Hrun|].
  destruct (run_outcome _ _ _ _ Hrun) as [_ [Hok|Hfail]].
  - left. destruct Hok as (Hst & _ & h & tr & Hout & _).
    split; [exact Hst|]. exists (hexdigest h).
    split; [apply hexdigest_line|exact Hout].
  - right. destruct Hfail as (Hst & Hout & _).
    split; [rewrite Hst; discriminate|exact Hout].
Qed.

Lemma run_all_or_nothing_witness :
  exists o,
    run 6 ["md5.py"; "bad.bin"]%string disk1 = Some o
    /\ ((exit_status o = 0%Z
         /\ exists d, digest_line d /\ out o = (d ++ newline)%string)
        \/ (exit_status o <> 0%Z /\ out o = EmptyString)).
Proof.
  apply (run_all_or_nothing 6 ["md5.py"; "bad.bin"]%string disk1).
  vm_compute. lia.
Defined.

(** C6.  When a run ends with status 0, standard output holds 32
    characters, each of them one of [0-9a-f], then one newline, and nothing
    else. *)
Theorem success_output_format (fuel : nat) (args : list string)
    (disk : string -> option node) (o : outcome) :
  run fuel args disk = Some o ->
  exit_status o = 0%Z ->
  exists d,
    out o = (d ++ newline)%string
    /\ String.length d = 32
    /\ Forall (fun c => is_lower_hex c = true) (list_ascii_of_string d).
Proof.
  intros Hrun Hst.
  destruct (run_outcome _ _ _ _ Hrun) as [_ [Hok|Hfail]].
  - destruct Hok as (_ & _ & h & tr & Hout & _).
    exists (hexdigest h). split; [exact Hout|apply hexdigest_line].
  - destruct Hfail as (Hst' & _). rewrite Hst in Hst'. discriminate.
Qed.

Lemma success_output_format_witness :
  exists d,
    ("900150983cd24fb0d6963f7d28e17f72" ++ newline)%string
    = (d ++ newline)%string
    /\ String.length d = 32
    /\ Forall (fun c => is_lower_hex c = true) (list_ascii_of_string d).
Proof.
  apply (success_output_format 2 ["md5.py"; "abc.txt"]%string disk1
           {| exit_status := 0;
              out := ("900150983cd24fb0d6963f7d28e17f72" ++ newline)%string;
              err := [];
              events := [EvNameExit; EvArgvIndex 1; EvArgvIndex 1;
                         EvOpen "abc.txt" (Some 1); EvRead 1 4096 (Some 3);
                         EvUpdate abc; EvRead 1 4096 (Some 0); EvClose 1;
                         EvPrint "900150983cd24fb0d6963f7d28e17f72"];
              left_open := [] |}).
  - vm_compute. reflexivity.
  - reflexivity.
Defined.

(** ** Paths that cannot be opened *)

(** C7.  When the path argument names nothing, a directory or a file that
    may not be read, the run ends with a status other than 0 and nothing on
    standard output, and the exception of [open] is reported on the error
    stream.  The file system is touched once, by the [open] itself: nothing
    tests for the file before. *)
Theorem unopenable_path_fails (fuel : nat) (args : list string)
    (disk : string -> option node) (path : string) :
  nth_error args 1 = Some path ->
  openable disk path = false ->
  exists o e,
    run fuel args disk = Some o
    /\ exit_status o <> 0%Z
    /\ out o = EmptyString
    /\ err o = [Traceback e]
    /\ (e = FileNotFoundError \/ e = IsADirectoryError \/ e = PermissionError)
    /\ events o = [EvNameExit; EvArgvIndex 1; EvArgvIndex 1; EvOpen path None].
Proof.
  intros Harg Hopen.
  destruct args as [|a [|p l]]; try discriminate.
  cbn in Harg. inversion Harg; subst p.
  rewrite run_with_argument. unfold md5. rewrite md5_sized_unfold.
  cbn [argv emit boot nth_error fs]. cbv zeta.
  unfold openable in Hopen.
  destruct (disk path) as [[content fault| |]|]; [discriminate| | |];
    eexists; eexists; cbn;
    (split; [reflexivity|]); (split; [discriminate|]);
    (split; [reflexivity|]); (split; [reflexivity|]);
    (split; [|reflexivity]); tauto.
Qed.

Lemma unopenable_path_fails_witness :
  exists o e,
    run 0 ["md5.py"; "dir"]%string disk1 = Some o
    /\ exit_status o <> 0%Z
    /\ out o = EmptyString
    /\ err o = [Traceback e]
    /\ (e = FileNotFoundError \/ e = IsADirectoryError \/ e = PermissionError)
    /\ events o = [EvNameExit; EvArgvIndex 1; EvArgvIndex 1;
                   EvOpen "dir"%string None].
Proof.
  apply (unopenable_path_fails 0 ["md5.py"; "dir"]%string disk1 "dir"%string).
  - reflexivity.
  - reflexivity.
Defined.

(** ** The file handle *)

(** C8.  A call of [md5] ends, by a return or by an exception, with the
    open handles that there were before it; at no point of the call is more
    than one handle of its own open, every read is from the one handle that
    is open then, and at the end none is open. *)
Theorem file_handle_scoped (fuel : nat) (fname : string) (st : state) :
  fuel_for (argv st) (fs st) <= fuel ->
  exists r st' tr,
    md5 fuel fname st = (r, st')
    /\ r <> OutOfFuel
    /\ open_fds st' = open_fds st
    /\ trace st' = trace st ++ tr
    /\ scoped tr.
Proof.
  intros Hfuel. unfold md5.
  pose proof (md5_sized_total 4096 ltac:(lia) fuel fname st Hfuel) as Htot.
  destruct (md5_sized 4096 fuel fname st) as [r st'] eqn:Hmd5.
  cbn [fst] in Htot.
  destruct (md5_sized_frame _ _ _ _ _ _ Hmd5 Htot) as (tr & -> & Htr).
  exists r, (emit tr st), tr.
  repeat split; try reflexivity; try exact Htot;
    apply (md5_events_scoped tr Htr).
Qed.

Lemma file_handle_scoped_witness :
  exists r st' tr,
    md5 6 "bad.bin" (boot ["md5.py"; "bad.bin"]%string disk1) = (r, st')
    /\ r <> OutOfFuel
    /\ open_fds st' = open_fds (boot ["md5.py"; "bad.bin"]%string disk1)
    /\ trace st' = trace (boot ["md5.py"; "bad.bin"]%string disk1) ++ tr
    /\ scoped tr.
Proof.
  apply (file_handle_scoped 6 "bad.bin"
           (boot ["md5.py"; "bad.bin"]%string disk1)).
  vm_compute. lia.
Defined.

(** ** Termination *)

(** C9.  The loop over a file ends once it has more fuel than the file
    has bytes left: it returns or raises, more fuel changes nothing, and
    when it returns the last thing it did was a read that gave no bytes.
    A call of [md5] ends likewise, by a return or by an exception. *)
Theorem read_loop_terminates :
  (forall (f : file) (h : md5_obj) (st : state) (fuel : nat),
     remaining f < fuel ->
     exists r st',
       read_loop 4096 fuel f h st = (r, st')
       /\ r <> OutOfFuel
       /\ (forall fuel', fuel <= fuel' ->
             read_loop 4096 fuel' f h st = (r, st'))
       /\ (forall h', r = Ok h' ->
             exists tr, st' = emit (tr ++ [EvRead (fd f) 4096 (Some 0)]) st))
  /\ (forall (fname : string) (st : state) (fuel : nat),
        fuel_for (argv st) (fs st) <= fuel ->
        exists r st',
          md5 fuel fname st = (r, st')
          /\ r <> OutOfFuel
          /\ (forall fuel', fuel <= fuel' -> md5 fuel' fname st = (r, st'))).
Proof.
  split.
  - intros f h st fuel Hfuel.
    pose proof (read_loop_total 4096 ltac:(lia) fuel f h st Hfuel) as Htot.
    destruct (read_loop 4096 fuel f h st) as [r st'] eqn:Hrun.
    cbn [fst] in Htot. exists r, st'.
    split; [reflexivity|]. split; [exact Htot|]. split.
    + intros fuel' Hle. exact (read_loop_mono _ _ _ _ _ _ _ _ Hrun Htot Hle).
    + intros h' ->. exact (read_loop_last_read _ _ _ _ _ _ _ Hrun).
  - intros fname st fuel Hfuel. unfold md5.
    pose proof (md5_sized_total 4096 ltac:(lia) fuel fname st Hfuel) as Htot.
    destruct (md5_sized 4096 fuel fname st) as [r st'] eqn:Hmd5.
    cbn [fst] in Htot. exists r, st'.
    split; [reflexivity|]. split; [exact Htot|].
    intros fuel' Hle. exact (md5_sized_mono _ _ _ _ _ _ _ Hmd5 Htot Hle).
Qed.

Lemma read_loop_terminates_witness :
  (exists r st',
     read_loop 4096 4 {| fd := 3; data := abc; fault_at := None; pos := 0 |}
               md5_new (boot [] disk1) = (r, st')
     /\ r <> OutOfFuel)
  /\ (exists r st',
        md5 4 "abc.txt" (boot ["md5.py"; "abc.txt"]%string disk1) = (r, st')
        /\ r <> OutOfFuel).
Proof.
  split.
  - destruct (proj1 read_loop_terminates
                {| fd := 3; data := abc; fault_at := None; pos := 0 |}
                md5_new (boot [] disk1) 4 ltac:(vm_compute; lia))
      as (r & st' & Hrun & Hr & _).
    exists r, st'. split; [exact Hrun|exact Hr].
  - destruct (proj2 read_loop_terminates "abc.txt"%string
                (boot ["md5.py"; "abc.txt"]%string disk1) 4
                ltac:(vm_compute; lia))
      as (r & st' & Hrun & Hr & _).
    exists r, st'. split; [exact Hrun|exact Hr].
Defined.

(** ** The parameter of [md5] *)

(** C10.  In one process state, [md5] gives the same result and leaves
    the same state whatever path it is passed: the body opens
    [sys.argv[1]]. *)
Theorem md5_ignores_fname (fuel : nat) (p q : string) (st : state) :
  md5 fuel p st = md5 fuel q st.
Proof. reflexivity. Qed.

(* ================================================================== *)
(** * Further properties of the loop *)
(* ================================================================== *)

Section LoopMore.

(** What the loop returns and what it logs do not depend on the state it
    starts in. *)
Lemma read_loop_uniform (size : nat) :
  forall fuel f h,
  exists r tr,
    (forall st, read_loop size fuel f h st = (r, emit tr st))
    /\ Forall (loop_event (fd f)) tr.
Proof.
  induction fuel as [|fuel IH]; intros f h.
  - exists OutOfFuel, []. split; [|constructor].
    intros st. now rewrite emit_nil.
  - destruct (hits_fault f (length (next_chunk f size))) eqn:Ehit.
    { eexists; eexists. split.
      - intros st. rewrite read_loop_S. cbv zeta. rewrite Ehit. reflexivity.
      - repeat constructor. }
    destruct (next_chunk f size) as [|b c] eqn:E.
    { eexists; eexists. split.
      - intros st. rewrite read_loop_S. cbv zeta. rewrite E.
        rewrite Ehit. reflexivity.
      - repeat constructor. }
    destruct (IH (advance f (length (b :: c))) (update h (b :: c)))
      as (r & tr & Hrun & Hev).
    exists r. eexists. split.
    + intros st. rewrite read_loop_S. cbv zeta. rewrite E.
      rewrite Ehit, Hrun, emit_emit. reflexivity.
    + repeat constructor. exact Hev.
Qed.

Lemma length_next_chunk (f : file) (size : nat) :
  length (next_chunk f size) = Nat.min size (remaining f).
Proof.
  unfold next_chunk, remaining. now rewrite length_firstn, length_skipn.
Qed.

Lemma length_rest (f : file) : length (rest f) = remaining f.
Proof. unfold rest, remaining. apply length_skipn. Qed.

(** A fault that does not bite is never hit. *)
Lemma hits_fault_harmless (f : file) (size : nat) :
  fault_bites (data f) (fault_at f) = false ->
  hits_fault f (length (next_chunk f size)) = false.
Proof.
  unfold fault_bites, hits_fault. rewrite length_next_chunk. unfold remaining.
  destruct (fault_at f) as [k|]; [|reflexivity].
  intros Hk. apply Nat.ltb_ge in Hk.
  destruct (pos f <=? k) eqn:E; [|reflexivity].
  apply Nat.leb_le in E. cbn. apply Nat.ltb_ge. lia.
Qed.

(** The number of chunks of at most [size] bytes in [r] bytes goes down
    by one with each chunk. *)
Lemma ceil_div_step (size r : nat) :
  0 < size -> 0 < r ->
  S ((r - Nat.min size r + size - 1) / size) = (r + size - 1) / size.
Proof.
  intros Hs Hr.
  replace (r + size - 1) with ((r - 1) + 1 * size) by lia.
  rewrite Nat.div_add by lia. rewrite Nat.add_1_r. f_equal.
  destruct (Nat.le_gt_cases size r) as [Hle|Hgt].
  - rewrite Nat.min_l by exact Hle. f_equal. lia.
  - rewrite Nat.min_r by lia.
    rewrite !Nat.div_small by lia. reflexivity.
Qed.

(** The loop over a file that can be read to its end: the chunks it
    passes to [update] are the rest of the file, each of them has at least
    one byte and at most [size], there are as many as the rest of the file
    needs, and there is one read more than there are chunks. *)
Lemma read_loop_chunks (size : nat) (Hsize : 0 < size) :
  forall fuel f h,
    fault_bites (data f) (fault_at f) = false -> remaining f < fuel ->
    exists tr,
      (forall st, read_loop size fuel f h st = (Ok (feed h (rest f)), emit tr st))
      /\ Forall (loop_event (fd f)) tr
      /\ concat (updates tr) = rest f
      /\ Forall (fun c => 0 < length c <= size) (updates tr)
      /\ length (updates tr) = (remaining f + size - 1) / size
      /\ reads tr = S (length (updates tr)).
Proof.
  induction fuel as [|fuel IH]; intros f h Hfault Hfuel; [lia|].
  pose proof (hits_fault_harmless f size Hfault) as Hhit.
  destruct (next_chunk f size) as [|b c] eqn:E.
  - pose proof (next_chunk_nil f size Hsize E) as Hrest.
    pose proof (length_rest f) as Hlen. rewrite Hrest in Hlen. cbn in Hlen.
    exists [EvRead (fd f) size (Some 0)].
    split; [|repeat split].
    + intros st. rewrite read_loop_S. cbv zeta. rewrite E in *.
      rewrite Hhit, Hrest. reflexivity.
    + repeat constructor.
    + cbn. now rewrite Hrest.
    + constructor.
    + cbn [updates length]. rewrite <- Hlen. cbn [Nat.add].
      symmetry. apply Nat.div_small. lia.
  - assert (Hne : next_chunk f size <> []) by congruence.
    pose proof (remaining_advance f size Hne) as Hrem.
    pose proof (next_chunk_rest f size) as Hrest.
    pose proof (length_next_chunk f size) as Hlen.
    rewrite E in Hrem, Hrest, Hlen.
    destruct (IH (advance f (length (b :: c))) (update h (b :: c)))
      as (tr & Hrun & Hev & Hcat & Hbound & Hcount & Hreads);
      [exact Hfault|lia|].
    exists ([EvRead (fd f) size (Some (length (b :: c))); EvUpdate (b :: c)]
            ++ tr).
    split; [|repeat split].
    + intros st. rewrite read_loop_S. cbv zeta. rewrite E.
      rewrite Hhit, Hrun, emit_emit, feed_app, Hrest by discriminate.
      reflexivity.
    + repeat constructor. exact Hev.
    + cbn [app updates concat]. rewrite Hcat. exact Hrest.
    + cbn [app updates]. constructor; [|exact Hbound].
      rewrite Hlen. cbn [length] in Hlen. lia.
    + cbn [app updates length]. rewrite Hcount.
      assert (Hadv : remaining (advance f (length (b :: c)))
                     = remaining f - Nat.min size (remaining f))
        by (rewrite Hlen; unfold remaining, advance; cbn [pos data]; lia).
      rewrite Hadv. apply ceil_div_step; [exact Hsize|].
      cbn [length] in Hlen. lia.
    + cbn [app updates reads length]. rewrite Hreads. reflexivity.
Qed.

(** The loop over a file whose fault bites ends by the [OSError] of the
    read that touches the faulty offset; what it passed to [update] before
    is a part of the file that ends before that offset. *)
Lemma read_loop_fault (size : nat) (Hsize : 0 < size) :
  forall fuel f h k,
    fault_at f = Some k -> pos f <= k < length (data f) ->
    remaining f < fuel ->
    exists tr,
      (forall st, read_loop size fuel f h st
                  = (Raise OSError,
                     emit (tr ++ [EvRead (fd f) size None]) st))
      /\ Forall (loop_event (fd f)) tr
      /\ reads tr = length (updates tr)
      /\ exists n, pos f + n <= k
                   /\ concat (updates tr) = firstn n (rest f).
Proof.
  induction fuel as [|fuel IH]; intros f h k Hfault Hk Hfuel; [lia|].
  pose proof (length_next_chunk f size) as Hlen.
  destruct (hits_fault f (length (next_chunk f size))) eqn:Ehit.
  - exists []. split; [|repeat split].
    + intros st. rewrite read_loop_S. cbv zeta. rewrite Ehit. reflexivity.
    + constructor.
    + exists 0. split; [lia|reflexivity].
  - assert (Hpast : pos f + length (next_chunk f size) <= k).
    { unfold hits_fault in Ehit. rewrite Hfault in Ehit.
      apply andb_false_iff in Ehit. destruct Ehit as [E|E].
      - apply Nat.leb_gt in E. lia.
      - apply Nat.ltb_ge in E. exact E. }
    destruct (next_chunk f size) as [|b c] eqn:E.
    { unfold remaining in Hlen. cbn [length] in Hlen. lia. }
    assert (Hne : next_chunk f size <> []) by congruence.
    pose proof (remaining_advance f size Hne) as Hrem.
    pose proof (next_chunk_rest f size) as Hrest.
    rewrite E in Hrem, Hrest.
    destruct (IH (advance f (length (b :: c))) (update h (b :: c)) k)
      as (tr & Hrun & Hev & Hreads & n & Hn & Hcat);
      [exact Hfault|cbn [advance pos data]; lia|lia|].
    exists ([EvRead (fd f) size (Some (length (b :: c))); EvUpdate (b :: c)]
            ++ tr).
    split; [|repeat split].
    + intros st. rewrite read_loop_S. cbv zeta. rewrite E.
      rewrite Ehit, Hrun, emit_emit, <- app_assoc. reflexivity.
    + repeat constructor. exact Hev.
    + cbn [app updates reads length]. rewrite Hreads. reflexivity.
    + exists (length (b :: c) + n). split.
      * cbn [advance pos] in Hn. lia.
      * cbn [app updates concat]. rewrite Hcat, <- Hrest.
        rewrite firstn_app_2. reflexivity.
Qed.

End LoopMore.

(* ================================================================== *)
(** * Further properties of a run *)
(* ================================================================== *)

Section RunMore.

(** A run whose path names a regular file, in terms of what the loop over
    that file returns and logs. *)
Lemma run_regular_file (fuel : nat) (a path : string) (l : list string)
    disk (B : list byte) (fault : option nat) (r : res md5_obj)
    (tr : list event) :
  disk path = Some (RegularFile B fault) ->
  (forall st, read_loop 4096 fuel (first_file B fault) md5_new st
              = (r, emit tr st)) ->
  run fuel (a :: path :: l) disk =
    match r with
    | Ok h =>
        Some {| exit_status := 0;
                out := (hexdigest h ++ newline)%string; err := [];
                events := prologue path ++ tr
                          ++ [EvClose 1; EvPrint (hexdigest h)];
                left_open := [] |}
    | Raise e =>
        Some {| exit_status := 1; out := EmptyString; err := [Traceback e];
                events := prologue path ++ tr ++ [EvClose 1];
                left_open := [] |}
    | OutOfFuel => None
    end.
Proof.
  intros Hdisk Hloop.
  rewrite run_with_argument. unfold md5. rewrite md5_sized_unfold.
  cbn [argv emit boot nth_error fs]. cbv zeta. rewrite Hdisk.
  cbn [fd fresh_fd open_fds emit boot list_max fold_right Nat.max].
  change {| fd := 1; data := B; fault_at := fault; pos := 0 |}
    with (first_file B fault).
  rewrite Hloop.
  destruct r as [h|e|]; [| |reflexivity].
  - unfold close, log, emit, set_fds, first_file, prologue.
    cbn [argv fs open_fds stdout trace fd]. rewrite remove_only.
    cbn [String.append app]. rewrite <- !app_assoc. reflexivity.
  - unfold close, log, emit, set_fds, first_file, prologue.
    cbn [argv fs open_fds stdout trace fd]. rewrite remove_only.
    cbn [app]. rewrite <- !app_assoc. reflexivity.
Qed.

(** A run whose path does not name a regular file. *)
Lemma run_unopenable (fuel : nat) (a path : string) (l : list string) disk :
  openable disk path = false ->
  run fuel (a :: path :: l) disk =
    Some {| exit_status := 1; out := EmptyString;
            err := [Traceback match disk path with
                              | Some Directory => IsADirectoryError
                              | Some Unreadable => PermissionError
                              | _ => FileNotFoundError
                              end];
            events := [EvNameExit; EvArgvIndex 1; EvArgvIndex 1;
                       EvOpen path None];
            left_open := [] |}.
Proof.
  intros Hopen.
  rewrite run_with_argument. unfold md5. rewrite md5_sized_unfold.
  cbn [argv emit boot nth_error fs]. cbv zeta.
  unfold openable in Hopen.
  destruct (disk path) as [[content fault| |]|]; [discriminate| | |];
    reflexivity.
Qed.

Lemma updates_prologue (path : string) (tr post : list event) :
  updates post = [] ->
  updates (prologue path ++ tr ++ post) = updates tr.
Proof.
  intros Hpost. unfold prologue. cbn [app updates].
  rewrite updates_app, Hpost. apply app_nil_r.
Qed.

Lemma reads_app (a b : list event) : reads (a ++ b) = reads a + reads b.
Proof.
  induction a as [|e a IH]; [reflexivity|].
  destruct e; cbn [app reads]; rewrite IH; reflexivity.
Qed.

(** A run on a file that can be read to its end, in full. *)
Lemma run_readable (fuel : nat) (a path : string) (l : list string) disk
    (B : list byte) (fault : option nat) :
  disk path = Some (RegularFile B fault) ->
  fault_bites B fault = false ->
  length B < fuel ->
  exists tr,
    run fuel (a :: path :: l) disk
    = Some {| exit_status := 0;
              out := (hex_of_chain (md5_sum B) ++ newline)%string;
              err := [];
              events := prologue path ++ tr
                        ++ [EvClose 1; EvPrint (hex_of_chain (md5_sum B))];
              left_open := [] |}
    /\ Forall (loop_event 1) tr
    /\ concat (updates tr) = B
    /\ Forall (fun c => 0 < length c <= 4096) (updates tr)
    /\ length (updates tr) = (length B + 4095) / 4096
    /\ reads tr = S (length (updates tr)).
Proof.
  intros Hdisk Hfault Hfuel.
  destruct (read_loop_chunks 4096 ltac:(lia) fuel (first_file B fault) md5_new)
    as (tr & Hrun & Hev & Hcat & Hbound & Hcount & Hreads);
    [exact Hfault|unfold remaining, first_file; cbn [data pos]; lia|].
  exists tr.
  rewrite (run_regular_file fuel a path l disk B fault _ tr Hdisk Hrun).
  change (rest (first_file B fault)) with B in *.
  rewrite hexdigest_feed_new.
  repeat split; try assumption.
  rewrite Hcount. unfold remaining, first_file. cbn [data pos].
  f_equal. lia.
Qed.

(** A run on a file whose fault bites, in full. *)
Lemma run_faulty (fuel : nat) (a path : string) (l : list string) disk
    (B : list byte) (k : nat) :
  disk path = Some (RegularFile B (Some k)) ->
  k < length B ->
  length B < fuel ->
  exists tr,
    run fuel (a :: path :: l) disk
    = Some {| exit_status := 1; out := EmptyString;
              err := [Traceback OSError];
              events := prologue path ++ tr
                        ++ [EvRead 1 4096 None; EvClose 1];
              left_open := [] |}
    /\ Forall (loop_event 1) tr
    /\ reads tr = length (updates tr)
    /\ exists n, n <= k /\ concat (updates tr) = firstn n B.
Proof.
  intros Hdisk Hk Hfuel.
  destruct (read_loop_fault 4096 ltac:(lia) fuel
              (first_file B (Some k)) md5_new k)
    as (tr & Hrun & Hev & Hreads & n & Hn & Hcat);
    [reflexivity|unfold first_file; cbn [data pos]; lia
    |unfold remaining, first_file; cbn [data pos]; lia|].
  exists tr.
  rewrite (run_regular_file fuel a path l disk B (Some k) _ _ Hdisk Hrun).
  rewrite <- app_assoc. cbn [app].
  repeat split; try assumption.
  exists n. split; [exact Hn|exact Hcat].
Qed.

(** Whatever the fuel, what a call of [md5] returns and logs is the same
    in every state that has the same [sys.argv], file system and open
    handles. *)
Lemma md5_sized_uniform (size fuel : nat) (fname : string) (st : state) :
  exists r tr,
    fst (md5_sized size fuel fname st) = r
    /\ forall tr0, r <> OutOfFuel ->
         md5_sized size fuel fname (emit tr0 st) = (r, emit (tr0 ++ tr) st).
Proof.
  destruct (nth_error (argv st) 1) as [path|] eqn:Harg.
  2:{ exists (Raise IndexError), [EvArgvIndex 1]. split.
      - rewrite md5_sized_unfold, Harg. reflexivity.
      - intros tr0 _.
        rewrite md5_sized_unfold. cbn [argv emit]. rewrite Harg.
        rewrite emit_emit. reflexivity. }
  destruct (fs st path) as [[content fault| |]|] eqn:Hfs.
  2-4: eexists; exists [EvArgvIndex 1; EvOpen path None];
       (split;
        [rewrite md5_sized_unfold, Harg; cbv zeta; rewrite Hfs; reflexivity
        |intros tr0 _;
         rewrite md5_sized_unfold; cbn [argv fs emit]; rewrite Harg;
         cbv zeta; rewrite Hfs; f_equal; unfold emit; cbn;
         rewrite <- !app_assoc; reflexivity]).
  set (f := {| fd := fresh_fd st; data := content; fault_at := fault;
               pos := 0 |}).
  destruct (read_loop_uniform size fuel f md5_new) as (r & tr & Hrun & _).
  exists (match r with
          | Ok h => Ok (hexdigest h)
          | Raise e => Raise e
          | OutOfFuel => OutOfFuel
          end),
         ([EvArgvIndex 1; EvOpen path (Some (fresh_fd st))] ++ tr
          ++ [EvClose (fresh_fd st)]).
  split.
  { rewrite md5_sized_unfold, Harg. cbv zeta. rewrite Hfs.
    change (fresh_fd (emit [EvArgvIndex 1] st)) with (fresh_fd st).
    fold f. rewrite Hrun. destruct r; reflexivity. }
  intros tr0 Hr.
  rewrite md5_sized_unfold. cbn [argv fs emit]. rewrite Harg.
  cbv zeta. rewrite Hfs.
  change (fresh_fd (emit [EvArgvIndex 1] (emit tr0 st))) with (fresh_fd st).
  fold f. rewrite Hrun.
  assert (Hclose :
    close f (emit tr (log (EvOpen path (Some (fd f)))
      (set_fds (fd f :: open_fds (emit [EvArgvIndex 1] (emit tr0 st)))
               (emit [EvArgvIndex 1] (emit tr0 st)))))
    = emit (tr0 ++ [EvArgvIndex 1; EvOpen path (Some (fresh_fd st))] ++ tr
            ++ [EvClose (fresh_fd st)]) st).
  { unfold close, log, emit, set_fds.
    cbn [argv fs open_fds stdout trace remove f fd].
    destruct (Nat.eq_dec (fresh_fd st) (fresh_fd st)) as [_|Hne];
      [|congruence].
    rewrite notin_remove by apply fresh_fd_notin.
    cbn [app]. rewrite <- !app_assoc. reflexivity. }
  destruct r as [h|e|]; [| |congruence]; (f_equal; exact Hclose).
Qed.

End RunMore.

(* ================================================================== *)
(** * Further statements *)
(* ================================================================== *)

(** X1.  A run whose path argument names a regular file that can be read
    to its end prints the MD5 digest of the bytes of that file and a
    newline, writes nothing to the error stream, leaves no file open and
    ends with status 0. *)
Theorem run_digest_of_readable_file (fuel : nat) (args : list string)
    (disk : string -> option node) (path : string) (B : list byte)
    (fault : option nat) :
  nth_error args 1 = Some path ->
  disk path = Some (RegularFile B fault) ->
  fault_bites B fault = false ->
  length B < fuel ->
  exists o,
    run fuel args disk = Some o
    /\ exit_status o = 0%Z
    /\ out o = (hex_of_chain (md5_sum B) ++ newline)%string
    /\ err o = []
    /\ left_open o = [].
Proof.
  intros Harg Hdisk Hfault Hfuel.
  destruct args as [|a [|p l]]; try discriminate.
  cbn in Harg. inversion Harg; subst p.
  destruct (run_readable fuel a path l disk B fault Hdisk Hfault Hfuel)
    as (tr & Hrun & _).
  rewrite Hrun. eexists. repeat split.
Qed.

Lemma run_digest_of_readable_file_witness :
  exists o,
    run 4 ["md5.py"; "abc.txt"]%string disk1 = Some o
    /\ exit_status o = 0%Z
    /\ out o = (hex_of_chain (md5_sum abc) ++ newline)%string
    /\ err o = []
    /\ left_open o = [].
Proof.
  apply (run_digest_of_readable_file 4 ["md5.py"; "abc.txt"]%string disk1
           "abc.txt"%string abc None).
  - reflexivity.
  - reflexivity.
  - reflexivity.
  - simpl. lia.
Defined.

(** X2.  A run looks at [sys.argv[1]] only: two runs whose argument lists
    have the same second element end alike, whatever the name of the
    program and whatever follows the path. *)
Theorem run_ignores_other_arguments (fuel : nat) (args args' : list string)
    (disk : string -> option node) (path : string) :
  nth_error args 1 = Some path ->
  nth_error args' 1 = Some path ->
  run fuel args disk = run fuel args' disk.
Proof.
  intros Harg Harg'.
  destruct args as [|a [|p l]]; try discriminate.
  destruct args' as [|a' [|p' l']]; try discriminate.
  cbn in Harg, Harg'. inversion Harg; inversion Harg'; subst p p'.
  destruct (disk path) as [[B fault| |]|] eqn:Hdisk.
  - destruct (read_loop_uniform 4096 fuel (first_file B fault) md5_new)
      as (r & tr & Hrun & _).
    rewrite (run_regular_file fuel a path l disk B fault r tr Hdisk Hrun).
    rewrite (run_regular_file fuel a' path l' disk B fault r tr Hdisk Hrun).
    reflexivity.
  - rewrite !run_unopenable by (unfold openable; now rewrite Hdisk).
    reflexivity.
  - rewrite !run_unopenable by (unfold openable; now rewrite Hdisk).
    reflexivity.
  - rewrite !run_unopenable by (unfold openable; now rewrite Hdisk).
    reflexivity.
Qed.

Lemma run_ignores_other_arguments_witness :
  run 4 ["md5.py"; "abc.txt"]%string disk1
  = run 4 ["other.py"; "abc.txt"; "empty.bin"; "dir"]%string disk1.
Proof.
  apply (run_ignores_other_arguments 4 ["md5.py"; "abc.txt"]%string
           ["other.py"; "abc.txt"; "empty.bin"; "dir"]%string disk1
           "abc.txt"%string).
  - reflexivity.
  - reflexivity.
Defined.

(** X3.  When a read of the file fails, the run ends by the [OSError] of
    that read: status 1, nothing on standard output, the traceback on the
    error stream.  The file is closed right after the failed read, nothing
    is printed, and what was hashed before, a part of the file that ends
    before the faulty offset, is dropped. *)
Theorem read_fault_fails_run (fuel : nat) (args : list string)
    (disk : string -> option node) (path : string) (B : list byte)
    (k : nat) :
  nth_error args 1 = Some path ->
  disk path = Some (RegularFile B (Some k)) ->
  k < length B ->
  length B < fuel ->
  exists o tr,
    run fuel args disk = Some o
    /\ exit_status o = 1%Z
    /\ out o = EmptyString
    /\ err o = [Traceback OSError]
    /\ left_open o = []
    /\ events o = prologue path ++ tr ++ [EvRead 1 4096 None; EvClose 1]
    /\ Forall (loop_event 1) tr
    /\ exists n, n <= k /\ concat (updates tr) = firstn n B.
Proof.
  intros Harg Hdisk Hk Hfuel.
  destruct args as [|a [|p l]]; try discriminate.
  cbn in Harg. inversion Harg; subst p.
  destruct (run_faulty fuel a path l disk B k Hdisk Hk Hfuel)
    as (tr & Hrun & Hev & _ & Hpre).
  rewrite Hrun. eexists. exists tr. repeat split; assumption.
Qed.

Lemma read_fault_fails_run_witness :
  exists o tr,
    run 4 ["md5.py"; "bad.bin"]%string disk1 = Some o
    /\ exit_status o = 1%Z
    /\ out o = EmptyString
    /\ err o = [Traceback OSError]
    /\ left_open o = []
    /\ events o = prologue "bad.bin" ++ tr ++ [EvRead 1 4096 None; EvClose 1]
    /\ Forall (loop_event 1) tr
    /\ exists n, n <= 1 /\ concat (updates tr) = firstn n abc.
Proof.
  apply (read_fault_fails_run 4 ["md5.py"; "bad.bin"]%string disk1
           "bad.bin"%string abc 1).
  - reflexivity.
  - reflexivity.
  - simpl. lia.
  - simpl. lia.
Defined.

(** X4.  On a file that can be read to its end, the chunks that the run
    passes to [update] are the bytes of the file, in order; each chunk has
    at least one byte and at most 4096; there are as many chunks as the
    length of the file divided by 4096 and rounded up, none for an empty
    file; and [read] is called once more than [update]. *)
Theorem run_chunks (fuel : nat) (args : list string)
    (disk : string -> option node) (path : string) (B : list byte)
    (fault : option nat) :
  nth_error args 1 = Some path ->
  disk path = Some (RegularFile B fault) ->
  fault_bites B fault = false ->
  length B < fuel ->
  exists o,
    run fuel args disk = Some o
    /\ concat (updates (events o)) = B
    /\ Forall (fun c => 0 < length c <= 4096) (updates (events o))
    /\ length (updates (events o)) = (length B + 4095) / 4096
    /\ reads (events o) = S (length (updates (events o))).
Proof.
  intros Harg Hdisk Hfault Hfuel.
  destruct args as [|a [|p l]]; try discriminate.
  cbn in Harg. inversion Harg; subst p.
  destruct (run_readable fuel a path l disk B fault Hdisk Hfault Hfuel)
    as (tr & Hrun & _ & Hcat & Hbound & Hcount & Hreads).
  rewrite Hrun. eexists. split; [reflexivity|]. cbn [events].
  rewrite (updates_prologue path tr
             [EvClose 1; EvPrint (hex_of_chain (md5_sum B))] eq_refl).
  repeat split; try assumption.
  unfold prologue. rewrite !reads_app. cbn [reads Nat.add].
  rewrite Hreads. lia.
Qed.

Lemma run_chunks_witness :
  exists o,
    run 4 ["md5.py"; "abc.txt"]%string disk1 = Some o
    /\ concat (updates (events o)) = abc
    /\ Forall (fun c => 0 < length c <= 4096) (updates (events o))
    /\ length (updates (events o)) = (length abc + 4095) / 4096
    /\ reads (events o) = S (length (updates (events o))).
Proof.
  apply (run_chunks 4 ["md5.py"; "abc.txt"]%string disk1
           "abc.txt"%string abc None).
  - reflexivity.
  - reflexivity.
  - reflexivity.
  - simpl. lia.
Defined.

(** X5.  A run ends with status 0 exactly when [sys.argv[1]] is there
    and names a regular file that can be read to its end; in every other
    case (no argument, no such file, a directory, a file that may not be
    opened, a read that fails) it ends with another status. *)
Theorem run_succeeds_iff_readable (fuel : nat) (args : list string)
    (disk : string -> option node) :
  fuel_for args disk <= fuel ->
  exists o,
    run fuel args disk = Some o
    /\ (exit_status o = 0%Z <-> readable args disk = true).
Proof.
  intros Hfuel.
  destruct args as [|a [|path l]].
  1-2: rewrite run_without_argument by (cbn; lia); eexists;
       (split; [reflexivity|]); cbn; split; discriminate.
  unfold fuel_for, file_size in Hfuel. cbn [nth_error] in Hfuel.
  unfold readable. cbn [nth_error].
  destruct (disk path) as [[B fault| |]|] eqn:Hdisk.
  - destruct (fault_bites B fault) eqn:Hbite.
    + destruct fault as [k|]; [|discriminate].
      apply Nat.ltb_lt in Hbite.
      destruct (run_faulty fuel a path l disk B k Hdisk Hbite ltac:(lia))
        as (tr & Hrun & _).
      rewrite Hrun. eexists. split; [reflexivity|].
      cbn. split; discriminate.
    + destruct (run_readable fuel a path l disk B fault Hdisk Hbite
                  ltac:(lia)) as (tr & Hrun & _).
      rewrite Hrun. eexists. split; [reflexivity|].
      cbn. split; reflexivity.
  - rewrite run_unopenable by (unfold openable; now rewrite Hdisk).
    eexists. split; [reflexivity|]. cbn. split; discriminate.
  - rewrite run_unopenable by (unfold openable; now rewrite Hdisk).
    eexists. split; [reflexivity|]. cbn. split; discriminate.
  - rewrite run_unopenable by (unfold openable; now rewrite Hdisk).
    eexists. split; [reflexivity|]. cbn. split; discriminate.
Qed.

Lemma run_succeeds_iff_readable_witness :
  exists o,
    run 4 ["md5.py"; "bad.bin"]%string disk1 = Some o
    /\ (exit_status o = 0%Z
        <-> readable ["md5.py"; "bad.bin"]%string disk1 = true).
Proof.
  apply (run_succeeds_iff_readable 4 ["md5.py"; "bad.bin"]%string disk1).
  vm_compute. lia.
Defined.

(** X6.  The events of a run that ends with status 0, in order: the bare
    [exit] expression, [sys.argv[1]] twice (for the call and in the body of
    [md5]), the [open] of that one path, reads of the opened file and
    updates, the [close], and last the one [print].  No other path is
    opened, and the file is closed before anything is printed. *)
Theorem success_event_order (fuel : nat) (args : list string)
    (disk : string -> option node) (o : outcome) :
  run fuel args disk = Some o ->
  exit_status o = 0%Z ->
  exists path loop d,
    nth_error args 1 = Some path
    /\ openable disk path = true
    /\ events o = prologue path ++ loop ++ [EvClose 1; EvPrint d]
    /\ Forall (loop_event 1) loop
    /\ out o = (d ++ newline)%string.
Proof.
  intros Hrun Hst.
  destruct args as [|a [|path l]].
  1-2: rewrite run_without_argument in Hrun by (cbn; lia);
       inversion Hrun; subst o; discriminate.
  destruct (openable disk path) eqn:Hopen.
  2:{ rewrite (run_unopenable fuel a path l disk Hopen) in Hrun.
      inversion Hrun; subst o. discriminate. }
  unfold openable in Hopen.
  destruct (disk path) as [[B fault| |]|] eqn:Hdisk; try discriminate.
  destruct (read_loop_uniform 4096 fuel (first_file B fault) md5_new)
    as (r & tr & Hloop & Hev).
  rewrite (run_regular_file fuel a path l disk B fault r tr Hdisk Hloop)
    in Hrun.
  destruct r as [h|e|]; inversion Hrun; subst o; [|discriminate].
  exists path, tr, (hexdigest h). cbn.
  repeat split; try reflexivity.
  - unfold openable. now rewrite Hdisk.
  - exact Hev.
Qed.

Lemma success_event_order_witness :
  exists path loop d,
    nth_error ["md5.py"; "abc.txt"]%string 1 = Some path
    /\ openable disk1 path = true
    /\ [EvNameExit; EvArgvIndex 1; EvArgvIndex 1;
        EvOpen "abc.txt" (Some 1); EvRead 1 4096 (Some 3);
        EvUpdate abc; EvRead 1 4096 (Some 0); EvClose 1;
        EvPrint "900150983cd24fb0d6963f7d28e17f72"]
       = prologue path ++ loop ++ [EvClose 1; EvPrint d]
    /\ Forall (loop_event 1) loop
    /\ ("900150983cd24fb0d6963f7d28e17f72" ++ newline)%string
       = (d ++ newline)%string.
Proof.
  apply (success_event_order 2 ["md5.py"; "abc.txt"]%string disk1
           {| exit_status := 0;
              out := ("900150983cd24fb0d6963f7d28e17f72" ++ newline)%string;
              err := [];
              events := [EvNameExit; EvArgvIndex 1; EvArgvIndex 1;
                         EvOpen "abc.txt" (Some 1); EvRead 1 4096 (Some 3);
                         EvUpdate abc; EvRead 1 4096 (Some 0); EvClose 1;
                         EvPrint "900150983cd24fb0d6963f7d28e17f72"];
              left_open := [] |}).
  - vm_compute. reflexivity.
  - reflexivity.
Defined.

(** X7.  [md5] keeps nothing from one call to the next: a second call,
    with any path, right after a call that ended returns what the first
    returned (the same digest or the same exception) and does what the
    first did, event for event, with nothing but the log changed. *)
Theorem md5_repeatable (fuel : nat) (p q : string) (st : state) :
  fuel_for (argv st) (fs st) <= fuel ->
  exists r tr,
    r <> OutOfFuel
    /\ md5 fuel p st = (r, emit tr st)
    /\ md5 fuel q (emit tr st) = (r, emit (tr ++ tr) st).
Proof.
  intros Hfuel. unfold md5.
  destruct (md5_sized_uniform 4096 fuel p st) as (r & tr & Hfst & Hrun).
  pose proof (md5_sized_total 4096 ltac:(lia) fuel p st Hfuel) as Htot.
  rewrite Hfst in Htot.
  exists r, tr. split; [exact Htot|]. split.
  - specialize (Hrun [] Htot). rewrite emit_nil in Hrun. exact Hrun.
  - exact (Hrun tr Htot).
Qed.

Lemma md5_repeatable_witness :
  exists r tr,
    r <> OutOfFuel
    /\ md5 4 "abc.txt" (boot ["md5.py"; "abc.txt"]%string disk1)
       = (r, emit tr (boot ["md5.py"; "abc.txt"]%string disk1))
    /\ md5 4 "dir" (emit tr (boot ["md5.py"; "abc.txt"]%string disk1))
       = (r, emit (tr ++ tr) (boot ["md5.py"; "abc.txt"]%string disk1)).
Proof.
  apply (md5_repeatable 4 "abc.txt" "dir"
           (boot ["md5.py"; "abc.txt"]%string disk1)).
  vm_compute. lia.
Defined.
